(** * Semantic code navigator: chunk extraction and batched ingestion

    A shallow embedding of [src/code_ingestion.py] (file discovery, the
    regex-driven chunk extractor, metadata enrichment, the orchestration of
    [ingest_repository]) and, from [src/mindsdb_client.py], of
    [MindsDBClient.insert_data], [ingest_git_repository], the naming and
    listing of sync jobs and the filter stage of [semantic_search], followed
    by the properties proved about them.

    Conventions.  A Python [str] is a [string]; a character is read as the
    code point with the same number, so the embedding covers text whose code
    points are below 256.  Line and list indices are [nat]; quantities that
    Python lets go negative (brace balance, batch size) are [Z]. *)

From Stdlib Require Import String Ascii List ZArith NArith Lia Bool Arith.
From Stdlib Require Import DecimalString.
Import ListNotations.

Local Open Scope string_scope.
Local Open Scope list_scope.

(* ================================================================== *)
(** * Part I: the embedding *)
(* ================================================================== *)

(** ** Python string primitives *)

Module Py.

(** [str.isspace] on one character, which is also what [\s] matches in a
    [str] pattern and what [str.strip()] removes: TAB..CR, FS..US, SPACE,
    NEL (0x85) and NBSP (0xA0) are the white space code points below 256. *)
Definition isspace (c : ascii) : bool :=
  let n := N_of_ascii c in
  (((9 <=? n) && (n <=? 13)) || ((28 <=? n) && (n <=? 32))
   || (n =? 133) || (n =? 160))%N.

(** [bool(s)]: a string is true when it is not empty. *)
Definition truthy (s : string) : bool :=
  match s with
  | EmptyString => false
  | String _ _ => true
  end.

Fixpoint lstrip (s : string) : string :=
  match s with
  | EmptyString => EmptyString
  | String c s' => if isspace c then lstrip s' else s
  end.

Fixpoint rstrip (s : string) : string :=
  match s with
  | EmptyString => EmptyString
  | String c s' =>
      match rstrip s' with
      | EmptyString => if isspace c then EmptyString else String c EmptyString
      | r => String c r
      end
  end.

(** [s.strip()] *)
Definition strip (s : string) : string := rstrip (lstrip s).

(** [s.startswith(p)] *)
Definition startswith (s p : string) : bool := String.prefix p s.

(** [' ' * n] *)
Fixpoint spaces (n : nat) : string :=
  match n with
  | O => EmptyString
  | S n' => String " " (spaces n')
  end.

Definition newline : ascii := ascii_of_nat 10.

(** [s.split('\n')]: never the empty list. *)
Fixpoint split_lines (s : string) : list string :=
  match s with
  | EmptyString => [EmptyString]
  | String c s' =>
      if Ascii.eqb c newline then EmptyString :: split_lines s'
      else match split_lines s' with
           | l :: ls => String c l :: ls
           | [] => [String c EmptyString]
           end
  end.

(** ['\n'.join(ls)] *)
Definition join_lines (ls : list string) : string :=
  String.concat (String newline EmptyString) ls.

(** [s.count(c)] for a one-character [c]. *)
Fixpoint count (c : ascii) (s : string) : Z :=
  match s with
  | EmptyString => 0%Z
  | String a s' => ((if Ascii.eqb a c then 1 else 0) + count c s')%Z
  end.

(** [str(n)] for a non-negative integer. *)
Definition str_of_nat (n : nat) : string :=
  NilEmpty.string_of_uint (Nat.to_uint n).

(** [ls[i:j]] for [0 <= i] and [0 <= j]. *)
Definition slice {A} (ls : list A) (i j : nat) : list A :=
  firstn (j - i) (skipn i ls).

(** [range(0, stop, step)] for [step > 0]. *)
Definition range_step (stop step : nat) : list nat :=
  map (fun k => k * step) (seq 0 ((stop + step - 1) / step)).

(** [x in xs] for strings. *)
Definition mem (x : string) (xs : list string) : bool :=
  existsb (String.eqb x) xs.

(** One character of [str.lower()]: A..Z, and the upper-case letters of the
    Latin-1 block (0xC0..0xDE without the multiplication sign 0xD7). *)
Definition lower_char (c : ascii) : ascii :=
  let n := N_of_ascii c in
  if (((65 <=? n) && (n <=? 90))
      || ((192 <=? n) && (n <=? 222) && negb (n =? 215)))%N
  then ascii_of_N (n + 32) else c.

Fixpoint lower (s : string) : string :=
  match s with
  | EmptyString => EmptyString
  | String c s' => String (lower_char c) (lower s')
  end.

End Py.

(** ** The line patterns of the extractor

    Each [re.compile(...)] of the source is embedded as the function that
    [pattern.match(line)] computes: [None] when the line does not match,
    otherwise the captured groups.  Every quantifier before the last group is
    followed by a character it cannot itself consume, so the greedy match is
    the only one and no backtracking into the groups can happen; the lazy
    [.*?] tail only asks whether some later position carries the closing
    tokens.  Lines never contain a newline, so [.] matches any character.
    The patterns are quoted with blanks between their tokens, which carry no
    meaning. *)

Module Pattern.

(** [\s*] greedy: the white space consumed and what follows. *)
Fixpoint spaces_star (s : string) : string * string :=
  match s with
  | EmptyString => (EmptyString, EmptyString)
  | String c s' =>
      if Py.isspace c
      then let (w, r) := spaces_star s' in (String c w, r)
      else (EmptyString, s)
  end.

(** A literal word at the head of [s]. *)
Fixpoint literal (w s : string) : option string :=
  match w with
  | EmptyString => Some s
  | String a w' =>
      match s with
      | String b s' => if Ascii.eqb a b then literal w' s' else None
      | EmptyString => None
      end
  end.

(** [(w1|w2|...)]: the first alternative that is a prefix. *)
Fixpoint alternatives (ws : list string) (s : string) : option (string * string) :=
  match ws with
  | [] => None
  | w :: ws' =>
      match literal w s with
      | Some r => Some (w, r)
      | None => alternatives ws' s
      end
  end.

Definition in_range (lo hi : N) (c : ascii) : bool :=
  ((lo <=? N_of_ascii c) && (N_of_ascii c <=? hi))%N.

(** [[a-zA-Z_]] *)
Definition ident_start (c : ascii) : bool :=
  in_range 97 122 c || in_range 65 90 c || Ascii.eqb c "_".

(** [[a-zA-Z0-9_]] *)
Definition ident_char (c : ascii) : bool :=
  ident_start c || in_range 48 57 c.

Fixpoint ident_star (s : string) : string * string :=
  match s with
  | EmptyString => (EmptyString, EmptyString)
  | String c s' =>
      if ident_char c
      then let (w, r) := ident_star s' in (String c w, r)
      else (EmptyString, s)
  end.

(** [[a-zA-Z_][a-zA-Z0-9_]*] greedy. *)
Definition identifier (s : string) : option (string * string) :=
  match s with
  | String c s' =>
      if ident_start c
      then let (w, r) := ident_star s' in Some (String c w, r)
      else None
  | EmptyString => None
  end.

(** [\s+]: at least one white space character. *)
Definition spaces_plus (s : string) : option string :=
  let (w, r) := spaces_star s in
  if Py.truthy w then Some r else None.

(** [.*?\):] somewhere in [s]. *)
Fixpoint tail_paren_colon (s : string) : bool :=
  match literal "):" s with
  | Some _ => true
  | None => match s with
            | String _ s' => tail_paren_colon s'
            | EmptyString => false
            end
  end.

(** [\s*\{] at the head of [s]. *)
Definition spaces_brace (s : string) : bool :=
  match snd (spaces_star s) with
  | String c _ => Ascii.eqb c "{"
  | EmptyString => false
  end.

(** [.*?\)\s*\{] somewhere in [s]. *)
Fixpoint tail_paren_brace (s : string) : bool :=
  match s with
  | EmptyString => false
  | String c s' =>
      (Ascii.eqb c ")" && spaces_brace s') || tail_paren_brace s'
  end.

(** [.*?=>\s*\{] somewhere in [s]. *)
Fixpoint tail_arrow_brace (s : string) : bool :=
  match s with
  | EmptyString => false
  | String c s' =>
      match literal "=>" s with
      | Some r => spaces_brace r || tail_arrow_brace s'
      | None => tail_arrow_brace s'
      end
  end.

(** The captured groups of a match. *)
Definition groups := list string.

(** The common head of the keyword patterns,
    [^ ( \s* ) ( kw1 | kw2 | .. ) \s+ ( [a-zA-Z_][a-zA-Z0-9_]* ) \s*], with its three groups
    and the rest of the line. *)
Definition keyword_head (kws : list string) (line : string)
  : option (groups * string) :=
  let (g1, r1) := spaces_star line in
  match alternatives kws r1 with
  | None => None
  | Some (g2, r2) =>
      match spaces_plus r2 with
      | None => None
      | Some r3 =>
          match identifier r3 with
          | None => None
          | Some (g3, r4) => Some ([g1; g2; g3], snd (spaces_star r4))
          end
      end
  end.

(** [^ ( \s* ) ( def | class ) \s+ ( [a-zA-Z_][a-zA-Z0-9_]* ) \s* \( .*? \) :] *)
Definition python_def (line : string) : option groups :=
  match keyword_head ["def"; "class"] line with
  | Some (gs, String c r) =>
      if Ascii.eqb c "(" && tail_paren_colon r then Some gs else None
  | _ => None
  end.

(** [^ ( \s* ) ( function ) \s+ ( [a-zA-Z_][a-zA-Z0-9_]* ) \s* \( .*? \) \s* \{] *)
Definition js_function (line : string) : option groups :=
  match keyword_head ["function"] line with
  | Some (gs, String c r) =>
      if Ascii.eqb c "(" && tail_paren_brace r then Some gs else None
  | _ => None
  end.

(** [^ ( \s* ) ( const | let | var ) \s+ ( [a-zA-Z_][a-zA-Z0-9_]* ) \s* = \s* .*? => \s* \{] *)
Definition js_arrow (line : string) : option groups :=
  match keyword_head ["const"; "let"; "var"] line with
  | Some (gs, String c r) =>
      if Ascii.eqb c "=" && tail_arrow_brace r then Some gs else None
  | _ => None
  end.

(** [^ ( \s* ) ( class ) \s+ ( [a-zA-Z_][a-zA-Z0-9_]* ) \s* \{] *)
Definition js_class (line : string) : option groups :=
  match keyword_head ["class"] line with
  | Some (gs, String c r) => if Ascii.eqb c "{" then Some gs else None
  | _ => None
  end.

(** [^ ( \s* ) ( [a-zA-Z_][a-zA-Z0-9_]* ) \s* \( .*? \) \s* \{] *)
Definition js_method (line : string) : option groups :=
  let (g1, r1) := spaces_star line in
  match identifier r1 with
  | None => None
  | Some (g2, r2) =>
      match snd (spaces_star r2) with
      | String c r =>
          if Ascii.eqb c "(" && tail_paren_brace r then Some [g1; g2] else None
      | EmptyString => None
      end
  end.

(** The [patterns] list of the JavaScript/TypeScript branch, in its order. *)
Definition js_patterns : list (string -> option groups) :=
  [js_function; js_arrow; js_class; js_method].

(** [match.group(k)], [k >= 1]. *)
Definition group (gs : groups) (k : nat) : string :=
  nth (k - 1) gs EmptyString.

End Pattern.

(** ** [CodeIngestionEngine.extract_functions_fallback] *)

Module Extract.

(** The dictionaries appended to [functions]. *)
Record func := mkFunc {
  name : string;
  type : string;
  content : string;
  start_line : nat;
  end_line : nat;
  line_range : string
}.

(** [f"{a}-{b}"] *)
Definition fmt_range (a b : nat) : string :=
  Py.str_of_nat a ++ "-" ++ Py.str_of_nat b.

(** The inner [for j in range(i + 1, len(lines))] of the Python branch.
    [rest] is [lines[j:]]; [dflt] is the value [end_line] holds when the loop
    never breaks. *)
Fixpoint python_block_end (indent_level : nat) (rest : list string)
    (j dflt : nat) : nat :=
  match rest with
  | [] => dflt
  | l :: rest' =>
      if Py.truthy (Py.strip l)
         && negb (Py.startswith l (Py.spaces (indent_level + 1)))
      then
        if Py.startswith l (Py.spaces indent_level) && Py.truthy (Py.strip l)
        then j - 1
        else python_block_end indent_level rest' (S j) dflt
      else python_block_end indent_level rest' (S j) dflt
  end.

(** The body of [if match:] in the Python branch, for line [i] with the
    groups [gs] of its match; [after] is [lines[i + 1:]]. *)
Definition python_func (lines : list string) (i : nat) (after : list string)
    (gs : Pattern.groups) : func :=
  let indent_level := String.length (Pattern.group gs 1) in
  let func_type := Pattern.group gs 2 in
  let func_name := Pattern.group gs 3 in
  let end_line :=
    python_block_end indent_level after (i + 1) (length lines - 1) in
  let func_content := Py.join_lines (Py.slice lines i (end_line + 1)) in
  mkFunc func_name func_type func_content (i + 1) (end_line + 1)
         (fmt_range (i + 1) (end_line + 1)).

(** [for i, line in enumerate(lines)] of the Python branch; [todo] is
    [lines[i:]]. *)
Fixpoint python_scan (lines todo : list string) (i : nat) : list func :=
  match todo with
  | [] => []
  | line :: todo' =>
      match Pattern.python_def line with
      | Some gs => python_func lines i todo' gs :: python_scan lines todo' (S i)
      | None => python_scan lines todo' (S i)
      end
  end.

(** The inner [for j in range(i + 1, len(lines))] of the brace branch. *)
Fixpoint js_block_end (brace_count : Z) (rest : list string)
    (j dflt : nat) : nat :=
  match rest with
  | [] => dflt
  | l :: rest' =>
      let brace_count := (brace_count + (Py.count "{" l - Py.count "}" l))%Z in
      if (brace_count =? 0)%Z then j
      else js_block_end brace_count rest' (S j) dflt
  end.

(** [for pattern in patterns: match = pattern.match(line); if match: ... break]:
    the first pattern that matches, with its groups. *)
Fixpoint first_match (ps : list (string -> option Pattern.groups))
    (line : string) : option Pattern.groups :=
  match ps with
  | [] => None
  | p :: ps' =>
      match p line with
      | Some gs => Some gs
      | None => first_match ps' line
      end
  end.

(** The body of [if match:] in the brace branch, for line [i]; [after] is
    [lines[i + 1:]]. *)
Definition js_func (lines : list string) (i : nat) (line : string)
    (after : list string) (gs : Pattern.groups) : func :=
  let func_name :=
    if (3 <=? length gs)%nat then Pattern.group gs 3 else Pattern.group gs 2 in
  let brace_count := (Py.count "{" line - Py.count "}" line)%Z in
  let end_line := js_block_end brace_count after (i + 1) i in
  let func_content := Py.join_lines (Py.slice lines i (end_line + 1)) in
  mkFunc func_name "function" func_content (i + 1) (end_line + 1)
         (fmt_range (i + 1) (end_line + 1)).

Fixpoint js_scan (lines todo : list string) (i : nat) : list func :=
  match todo with
  | [] => []
  | line :: todo' =>
      match first_match Pattern.js_patterns line with
      | Some gs => js_func lines i line todo' gs :: js_scan lines todo' (S i)
      | None => js_scan lines todo' (S i)
      end
  end.

Definition chunk_size : nat := 50.

(** One turn of [for i in range(0, len(lines), chunk_size)]. *)
Definition window (lines : list string) (i : nat) : list func :=
  let chunk_lines := Py.slice lines i (i + chunk_size) in
  let chunk_content := Py.join_lines chunk_lines in
  if Py.truthy (Py.strip chunk_content)
  then [mkFunc ("chunk_" ++ Py.str_of_nat (i / chunk_size + 1))
               "code_chunk" chunk_content (i + 1)
               (Nat.min (i + chunk_size) (length lines))
               (fmt_range (i + 1) (Nat.min (i + chunk_size) (length lines)))]
  else [].

(** The [if not functions:] block. *)
Definition windows (lines : list string) : list func :=
  flat_map (window lines) (Py.range_step (length lines) chunk_size).

Definition pattern_functions (lines : list string) (language : string)
  : list func :=
  if String.eqb language "python" then python_scan lines lines 0
  else if Py.mem language ["javascript"; "typescript"]
       then js_scan lines lines 0
       else [].

Definition extract_functions_fallback (content language : string)
  : list func :=
  let lines := Py.split_lines content in
  let functions := pattern_functions lines language in
  match functions with
  | [] => windows lines
  | _ :: _ => functions
  end.

End Extract.

(** ** File discovery: [CodeIngestionEngine.discover_code_files] *)

Module Discovery.

(** [s.rfind(c)] for a one-character [c]; [None] stands for -1. *)
Fixpoint rfind (c : ascii) (s : string) : option nat :=
  match s with
  | EmptyString => None
  | String a s' =>
      match rfind c s' with
      | Some k => Some (S k)
      | None => if Ascii.eqb a c then Some 0 else None
      end
  end.

Fixpoint all_dots (s : string) : bool :=
  match s with
  | EmptyString => true
  | String c s' => Ascii.eqb c "." && all_dots s'
  end.

(** [os.path.splitext(p)[1]] (POSIX): the text from the last dot on, when
    that dot lies after the last separator and some character between the
    separator and the dot is not itself a dot. *)
Definition splitext_ext (p : string) : string :=
  let filenameIndex :=
    match rfind "/" p with Some sepIndex => sepIndex + 1 | None => 0 end in
  match rfind "." p with
  | Some dotIndex =>
      if (filenameIndex <=? dotIndex)%nat
         && negb (all_dots (substring filenameIndex (dotIndex - filenameIndex) p))
      then substring dotIndex (String.length p - dotIndex) p
      else EmptyString
  | None => EmptyString
  end.

Fixpoint endswith_sep (s : string) : bool :=
  match s with
  | EmptyString => false
  | String c EmptyString => Ascii.eqb c "/"
  | String _ s' => endswith_sep s'
  end.

(** [os.path.join(a, b)] (POSIX). *)
Definition path_join (a b : string) : string :=
  if Py.startswith b "/" then b
  else if negb (Py.truthy a) || endswith_sep a then (a ++ b)%string
  else (a ++ "/" ++ b)%string.

(** What [os.walk] sees below a directory: its plain files and its
    sub-directories, in listing order.  A directory that cannot be listed, or
    a symbolic link to a directory (not followed), shows as a directory
    without entries. *)
#[warnings="-register-all"] Inductive tree : Type :=
| Dir (files : list string) (dirs : list (string * tree)).

(** [for root, dirs, files in os.walk(repo_path)] with the loop body's first
    statement, [dirs[:] = [d for d in dirs if d not in exclude_dirs]]: the
    walk is top-down and descends only into the names left in [dirs], so an
    excluded name is never entered.  The result lists the [(root, files)]
    pairs in the order the loop meets them. *)
Fixpoint walk (exclude_dirs : list string) (root : string) (t : tree)
  : list (string * list string) :=
  match t with
  | Dir files dirs =>
      (root, files)
      :: (fix descend (ds : list (string * tree)) : list (string * list string) :=
            match ds with
            | [] => []
            | (d, sub) :: ds' =>
                if negb (Py.mem d exclude_dirs)
                then walk exclude_dirs (path_join root d) sub ++ descend ds'
                else descend ds'
            end) dirs
  end.

(** [[f'.{ext}' if not ext.startswith('.') else ext for ext in extensions]] *)
Definition valid_extensions (extensions : list string) : list string :=
  map (fun ext =>
         if negb (Py.startswith ext ".") then ("." ++ ext)%string else ext)
      extensions.

(** [os.path.splitext(file)[1].lower()] *)
Definition file_ext (file : string) : string := Py.lower (splitext_ext file).

Definition discover_code_files (t : tree) (repo_path : string)
    (extensions exclude_dirs : list string) : list string :=
  let valid := valid_extensions extensions in
  flat_map
    (fun '(root, files) =>
       flat_map
         (fun file =>
            let file_path := path_join root file in
            if Py.mem (file_ext file) valid then [file_path] else [])
         files)
    (walk exclude_dirs repo_path t).

End Discovery.

(** ** [hashlib.md5(...).hexdigest()] (RFC 1321) *)

Module MD5.

Local Open Scope Z_scope.

Definition mask32 : Z := 0xFFFFFFFF.

Definition add32 (a b : Z) : Z := Z.land (a + b) mask32.

Definition not32 (a : Z) : Z := Z.lxor a mask32.

Definition rotl32 (x c : Z) : Z :=
  Z.lor (Z.land (Z.shiftl x c) mask32) (Z.shiftr x (32 - c)).

Definition shifts : list Z :=
  [7; 12; 17; 22; 7; 12; 17; 22; 7; 12; 17; 22; 7; 12; 17; 22;
   5; 9; 14; 20; 5; 9; 14; 20; 5; 9; 14; 20; 5; 9; 14; 20;
   4; 11; 16; 23; 4; 11; 16; 23; 4; 11; 16; 23; 4; 11; 16; 23;
   6; 10; 15; 21; 6; 10; 15; 21; 6; 10; 15; 21; 6; 10; 15; 21].

(** [floor(2^32 * abs(sin(i + 1)))] for [i = 0..63]. *)
Definition sines : list Z :=
  [
   0xd76aa478; 0xe8c7b756; 0x242070db; 0xc1bdceee;
   0xf57c0faf; 0x4787c62a; 0xa8304613; 0xfd469501;
   0x698098d8; 0x8b44f7af; 0xffff5bb1; 0x895cd7be;
   0x6b901122; 0xfd987193; 0xa679438e; 0x49b40821;
   0xf61e2562; 0xc040b340; 0x265e5a51; 0xe9b6c7aa;
   0xd62f105d; 0x02441453; 0xd8a1e681; 0xe7d3fbc8;
   0x21e1cde6; 0xc33707d6; 0xf4d50d87; 0x455a14ed;
   0xa9e3e905; 0xfcefa3f8; 0x676f02d9; 0x8d2a4c8a;
   0xfffa3942; 0x8771f681; 0x6d9d6122; 0xfde5380c;
   0xa4beea44; 0x4bdecfa9; 0xf6bb4b60; 0xbebfbc70;
   0x289b7ec6; 0xeaa127fa; 0xd4ef3085; 0x04881d05;
   0xd9d4d039; 0xe6db99e5; 0x1fa27cf8; 0xc4ac5665;
   0xf4292244; 0x432aff97; 0xab9423a7; 0xfc93a039;
   0x655b59c3; 0x8f0ccc92; 0xffeff47d; 0x85845dd1;
   0x6fa87e4f; 0xfe2ce6e0; 0xa3014314; 0x4e0811a1;
   0xf7537e82; 0xbd3af235; 0x2ad7d2bb; 0xeb86d391].

Definition state : Type := (Z * Z * Z * Z)%type.

Definition init : state := (0x67452301, 0xefcdab89, 0x98badcfe, 0x10325476).

(** Little-endian bytes of a word, and back. *)
Definition le_bytes (n : nat) (x : Z) : list Z :=
  map (fun k => Z.land (Z.shiftr x (8 * Z.of_nat k)) 255) (seq 0 n).

Fixpoint le_word (bs : list Z) : Z :=
  match bs with
  | [] => 0
  | b :: bs' => b + 256 * le_word bs'
  end.

(** Cut a list into consecutive groups of [n] elements ([n > 0]); [k] counts
    down the room left in the group being filled. *)
Fixpoint groups_of {A} (n : nat) (acc : list A) (k : nat) (l : list A)
  : list (list A) :=
  match l with
  | [] => match acc with [] => [] | _ => [rev acc] end
  | x :: l' =>
      match k with
      | S O | O => rev (x :: acc) :: groups_of n [] n l'
      | S k' => groups_of n (x :: acc) k' l'
      end
  end.

(** Padding: a single 1 bit, zeros up to 56 modulo 64, the bit length on 64
    bits. *)
Definition pad (msg : list Z) : list Z :=
  let len := Z.of_nat (length msg) in
  msg ++ [128] ++ repeat 0 (Z.to_nat ((55 - len) mod 64))
      ++ le_bytes 8 ((8 * len) mod 2 ^ 64).

Definition round (M : list Z) (st : state) (i : nat) : state :=
  let '(A, B, C, D) := st in
  let iz := Z.of_nat i in
  let '(F, g) :=
    if iz <? 16 then (Z.lor (Z.land B C) (Z.land (not32 B) D), iz)
    else if iz <? 32 then
      (Z.lor (Z.land D B) (Z.land (not32 D) C), (5 * iz + 1) mod 16)
    else if iz <? 48 then (Z.lxor (Z.lxor B C) D, (3 * iz + 5) mod 16)
    else (Z.lxor C (Z.lor B (not32 D)), (7 * iz) mod 16) in
  let F := add32 (add32 (add32 F A) (nth i sines 0)) (nth (Z.to_nat g) M 0) in
  (D, add32 B (rotl32 F (nth i shifts 0)), B, C).

Definition block (st : state) (bytes : list Z) : state :=
  let M := map le_word (groups_of 4 [] 4 bytes) in
  let '(a0, b0, c0, d0) := st in
  let '(A, B, C, D) := fold_left (round M) (seq 0 64) st in
  (add32 a0 A, add32 b0 B, add32 c0 C, add32 d0 D).

Definition digest (msg : list Z) : list Z :=
  let '(a, b, c, d) := fold_left block (groups_of 64 [] 64 (pad msg)) init in
  le_bytes 4 a ++ le_bytes 4 b ++ le_bytes 4 c ++ le_bytes 4 d.

Definition hex_digit (n : Z) : ascii :=
  nth (Z.to_nat n) (list_ascii_of_string "0123456789abcdef") "0"%char.

Fixpoint hex (bytes : list Z) : string :=
  match bytes with
  | [] => EmptyString
  | b :: bs => String (hex_digit (b / 16)) (String (hex_digit (b mod 16)) (hex bs))
  end.

Definition hexdigest (msg : list Z) : string := hex (digest msg).

(** [s.encode()]: UTF-8 of code points below 256. *)
Fixpoint encode (s : string) : list Z :=
  match s with
  | EmptyString => []
  | String c s' =>
      let n := Z.of_N (N_of_ascii c) in
      (if n <? 128 then [n] else [192 + n / 64; 128 + n mod 64]) ++ encode s'
  end.

End MD5.

(** ** Metadata enrichment: [extract_git_metadata] and [process_file] *)

Module Enrich.

(** [CodeIngestionEngine.LANGUAGE_MAPPING] *)
Definition LANGUAGE_MAPPING : list (string * string) :=
  [(".py", "python"); (".js", "javascript"); (".jsx", "javascript");
   (".ts", "typescript"); (".tsx", "typescript"); (".go", "go");
   (".java", "java"); (".rs", "rust"); (".cpp", "cpp"); (".cc", "cpp");
   (".cxx", "cpp"); (".c", "c"); (".h", "c"); (".hpp", "cpp")].

(** [d.get(k, default)] on a dictionary with string keys. *)
Fixpoint dict_get {V} (d : list (string * V)) (k : string) (default : V) : V :=
  match d with
  | [] => default
  | (k', v) :: d' => if String.eqb k' k then v else dict_get d' k default
  end.

(** A commit as [extract_git_metadata] reads it: [str(c.author)],
    [datetime.fromtimestamp(c.committed_date).isoformat()], [c.hexsha]. *)
Record commit := mkCommit {
  commit_author : string;
  commit_date_iso : string;
  commit_hexsha : string
}.

(** A [git.Repo]: [iter_commits(paths=p, max_count=1)] and
    [remote('origin').url]; [None] when the call raises. *)
Record repo := mkRepo {
  iter_commits : string -> option (list commit);
  remote_origin_url : option string
}.

(** Everything the two methods read from outside; [None] is a raised
    exception. *)
Record world := mkWorld {
  read_text : string -> option string;
  getmtime_iso : string -> option string;
  relpath : string -> string -> string;
  open_repo : string -> option repo
}.

(** The [metadata] dictionary; an absent key is [None]. *)
Record metadata := mkMetadata {
  md_author : option string;
  md_last_modified : option string;
  md_commit_hash : option string;
  md_repo : option string
}.

(** The body of the [else:] branch, which is also that of the handler
    [except Exception]: a second failure of [getmtime] leaves the method. *)
Definition mtime_only (w : world) (repo_path file_path : string)
  : option metadata :=
  match getmtime_iso w file_path with
  | Some t => Some (mkMetadata None (Some t) None (Some repo_path))
  | None => None
  end.

Definition extract_git_metadata (w : world) (repo_path file_path : string)
    (extract_git_info : bool) : option metadata :=
  if extract_git_info then
    match open_repo w repo_path with
    | None => mtime_only w repo_path file_path
    | Some r =>
        let rel_path := relpath w file_path repo_path in
        let origin :=
          match remote_origin_url r with
          | Some url => url
          | None => repo_path
          end in
        match iter_commits r rel_path with
        | None => mtime_only w repo_path file_path
        | Some (last_commit :: _) =>
            Some (mkMetadata (Some (commit_author last_commit))
                             (Some (commit_date_iso last_commit))
                             (Some (substring 0 8 (commit_hexsha last_commit)))
                             (Some origin))
        | Some [] =>
            match getmtime_iso w file_path with
            | Some t => Some (mkMetadata None (Some t) None (Some origin))
            | None => mtime_only w repo_path file_path
            end
        end
    end
  else mtime_only w repo_path file_path.

(** The [chunk] dictionaries of [process_file]. *)
Record chunk := mkChunk {
  code_chunk : string;
  filepath : string;
  language : string;
  function_name : string;
  repo_field : string;
  last_modified : string;
  chunk_id : string;
  author : string;
  line_range : string
}.

(** [hashlib.md5(f"{repo_url}:{rel}:{name}".encode()).hexdigest()[:12]] *)
Definition make_chunk_id (repo_url rel name : string) : string :=
  substring 0 12
    (MD5.hexdigest (MD5.encode (repo_url ++ ":" ++ rel ++ ":" ++ name))).

Definition option_default (o : option string) (d : string) : string :=
  match o with Some s => s | None => d end.

(** One turn of [for func in functions]. *)
Definition make_chunk (w : world) (file_path repo_path repo_url : string)
    (extract_git_info : bool) (language : string) (git_metadata : metadata)
    (func : Extract.func) : chunk :=
  let id := make_chunk_id repo_url (relpath w file_path repo_path)
                          (Extract.name func) in
  let relative_path := relpath w file_path repo_path in
  let clean_code_content := Py.strip (Extract.content func) in
  mkChunk clean_code_content relative_path language (Extract.name func)
          repo_url
          (option_default (md_last_modified git_metadata) EmptyString)
          id
          (if extract_git_info
           then option_default (md_author git_metadata) EmptyString else EmptyString)
          (if extract_git_info then Extract.line_range func else EmptyString).

(** [process_file]; every exception ends in the handler that returns the
    chunks gathered so far, which is the empty list before the loop. *)
Definition process_file (w : world) (file_path repo_path repo_url : string)
    (extract_git_info : bool) : list chunk :=
  match read_text w file_path with
  | None => []
  | Some content =>
      if negb (Py.truthy (Py.strip content)) then []
      else
        let file_ext := Py.lower (Discovery.splitext_ext file_path) in
        let language := dict_get LANGUAGE_MAPPING file_ext "text" in
        let functions := Extract.extract_functions_fallback content language in
        match extract_git_metadata w repo_path file_path extract_git_info with
        | None => []
        | Some git_metadata =>
            map (make_chunk w file_path repo_path repo_url extract_git_info
                            language git_metadata)
                functions
        end
  end.

End Enrich.

(** ** The batch writer: [MindsDBClient.insert_data] *)

Module Writer.

Local Open Scope Z_scope.

(** A field value, by the three cases the serializer tells apart: a [str],
    [None], or anything else, kept as its [str(value)]. *)
Inductive value : Type :=
| VStr (s : string)
| VNone
| VOther (str_value : string).

(** A record: a dictionary in insertion order. *)
Definition record : Type := list (string * value).

Definition quote : ascii := ascii_of_nat 39.
Definition backslash : ascii := ascii_of_nat 92.

(** [s.replace(c, c + c)] for a one-character [c]. *)
Fixpoint double_char (c : ascii) (s : string) : string :=
  match s with
  | EmptyString => EmptyString
  | String a s' =>
      if Ascii.eqb a c then String a (String a (double_char c s'))
      else String a (double_char c s')
  end.

Definition quoted (s : string) : string :=
  (String quote s ++ String quote EmptyString)%string.

Definition escape (v : value) : string :=
  match v with
  | VStr s => quoted (double_char quote (double_char backslash s))
  | VNone => "NULL"
  | VOther s => quoted (double_char quote s)
  end.

(** [record[col]]: [None] is the [KeyError]. *)
Fixpoint lookup (r : record) (col : string) : option value :=
  match r with
  | [] => None
  | (k, v) :: r' => if String.eqb k col then Some v else lookup r' col
  end.

(** [[f(x) for x in xs]] where [f] may raise. *)
Fixpoint traverse {A B} (f : A -> option B) (xs : list A) : option (list B) :=
  match xs with
  | [] => Some []
  | x :: xs' =>
      match f x with
      | None => None
      | Some y =>
          match traverse f xs' with
          | None => None
          | Some ys => Some (y :: ys)
          end
      end
  end.

Definition comma_join (ls : list string) : string := String.concat ", " ls.

(** The row [f"({', '.join(escaped_values)})"] of one record. *)
Definition row (columns : list string) (r : record) : option string :=
  match traverse (fun col => option_map escape (lookup r col)) columns with
  | Some escaped_values =>
      Some ("(" ++ comma_join escaped_values ++ ")")%string
  | None => None
  end.

Definition indent : string := Py.spaces 24.
Definition nl : string := String Py.newline EmptyString.

(** The statement built inside the [try]; [None] when building it raises
    ([batch_data[0]] of an empty batch, a missing column). *)
Definition insert_query (kb_name : string) (batch_data : list record)
  : option string :=
  match batch_data with
  | [] => None
  | first :: _ =>
      let columns := map fst first in
      match traverse (row columns) batch_data with
      | None => None
      | Some values_list =>
          Some (nl ++ indent ++ "INSERT INTO " ++ kb_name ++ " ("
                   ++ comma_join columns ++ ")" ++ nl
                   ++ indent ++ "VALUES " ++ comma_join values_list ++ ";" ++ nl
                   ++ indent)%string
      end
  end.

(** What [insert_data] prints; the pauses ([time.sleep]) leave no trace. *)
Inductive event : Type :=
| NoData
| UsingBatchSize (batch_size : Z)
| TotalRecords (n : nat)
| InsertedBatch (batch_num total_batches : Z) (records : nat)
| BatchRetrying (batch_num : Z) (attempt : Z)
| Reconnecting
| BatchFailed (batch_num : Z) (max_retries : Z)
| InsertedAll (records : nat) (successful_batches : Z)
| PartiallySuccessful (inserted_records : Z) (records : nat)
| FailedAny
| InsertionFailed.

Section Store.

(** The external store behind [self.server]: [execute_query] on a state
    returns the next state and whether the query went through ([false]: it
    raised); [reconnect] is [self.disconnect(); self.connect()], whose own
    failures are swallowed and show only in the state it leaves. *)
Variable Server : Type.
Variable execute_query : Server -> string -> Server * bool.
Variable reconnect : Server -> Server.
Variable kb_name : string.

Definition max_retries : Z := 3.

(** [for attempt in range(max_retries)] for one batch; [todo] counts the
    attempts still to run.  The result carries whether the batch went in. *)
Fixpoint attempts (todo : nat) (attempt : Z) (batch_data : list record)
    (batch_num total_batches : Z) (srv : Server)
  : Server * list event * bool :=
  match todo with
  | O => (srv, [], false)
  | S todo' =>
      let '(srv1, ok) :=
        match insert_query kb_name batch_data with
        | Some q => execute_query srv q
        | None => (srv, false)
        end in
      if ok then
        (srv1, [InsertedBatch batch_num total_batches (length batch_data)], true)
      else if attempt <? max_retries - 1 then
        let '(srv2, log, res) :=
          attempts todo' (attempt + 1) batch_data batch_num total_batches
                   (reconnect srv1) in
        (srv2, BatchRetrying batch_num (attempt + 1) :: Reconnecting :: log, res)
      else
        let '(srv2, log, res) :=
          attempts todo' (attempt + 1) batch_data batch_num total_batches srv1 in
        (srv2, BatchFailed batch_num max_retries :: log, res)
  end.

(** [range(0, stop, step)] for a non-zero [step] and [stop >= 0]. *)
Definition range_step (stop step : Z) : list Z :=
  if 0 <? step
  then map (fun k => Z.of_nat k * step) (seq 0 (Z.to_nat ((stop + step - 1) / step)))
  else [].

(** [data[i:j]] for [0 <= i <= j]. *)
Definition slice (data : list record) (i j : Z) : list record :=
  firstn (Z.to_nat (j - i)) (skipn (Z.to_nat i) data).

(** The state of the batch loop. *)
Definition loop_state : Type := (Server * list event * Z)%type.

(** One turn of [for i in range(0, len(data), batch_size)]. *)
Definition batch_step (data : list record) (batch_size total_batches : Z)
    (st : loop_state) (i : Z) : loop_state :=
  let '(srv, log, successful_batches) := st in
  let batch_data := slice data i (i + batch_size) in
  let batch_num := i / batch_size + 1 in
  let '(srv', log', ok) :=
    attempts (Z.to_nat max_retries) 0 batch_data batch_num total_batches srv in
  (srv', log ++ log', if ok then successful_batches + 1 else successful_batches).

(** [x or y] on integers. *)
Definition int_or (x : option Z) (y : Z) : Z :=
  match x with
  | Some v => if v =? 0 then y else v
  | None => y
  end.

(** [min(batch_size or config.stress_test.batch_size, 25)] *)
Definition effective_batch_size (config_batch_size : Z) (batch_size : option Z)
  : Z :=
  Z.min (int_or batch_size config_batch_size) 25.

(** [insert_data]: the state of the store afterwards, what was printed, and
    the returned boolean.  A batch size of zero makes the computation of
    [total_batches] raise [ZeroDivisionError], which the outer handler turns
    into [False]. *)
Definition insert_data (config_batch_size : Z) (srv : Server)
    (data : list record) (batch_size : option Z)
  : Server * list event * bool :=
  match data with
  | [] => (srv, [NoData], true)
  | _ :: _ =>
      let batch_size := effective_batch_size config_batch_size batch_size in
      let log0 := [UsingBatchSize batch_size; TotalRecords (length data)] in
      if batch_size =? 0 then (srv, log0 ++ [InsertionFailed], false)
      else
        let len := Z.of_nat (length data) in
        let total_batches := (len + batch_size - 1) / batch_size in
        let '(srv', log, successful_batches) :=
          fold_left (batch_step data batch_size total_batches)
                    (range_step len batch_size) (srv, log0, 0) in
        if successful_batches =? total_batches then
          (srv', log ++ [InsertedAll (length data) successful_batches], true)
        else if 0 <? successful_batches then
          let inserted_records := successful_batches * batch_size in
          (srv', log ++ [PartiallySuccessful inserted_records (length data)], true)
        else (srv', log ++ [FailedAny], false)
  end.

End Store.

End Writer.

(** ** Vocabulary of the statements *)

Module Spec.

(** Some character of [s] is not white space. *)
Fixpoint has_ink (s : string) : bool :=
  match s with
  | EmptyString => false
  | String c s' => negb (Py.isspace c) || has_ink s'
  end.

(** The number of leading blanks of a line. *)
Fixpoint indentation (s : string) : nat :=
  match s with
  | String c s' => if Ascii.eqb c " " then S (indentation s') else 0
  | EmptyString => 0
  end.

(** The block end as the specification words it: the line before the first
    later line that is not blank and is indented by at most [k]; the last
    line when there is none.  [rest] is [lines[j:]]. *)
Fixpoint dedent_block_end (k : nat) (rest : list string) (j last : nat) : nat :=
  match rest with
  | [] => last
  | l :: rest' =>
      if has_ink l && (indentation l <=? k)%nat then j - 1
      else dedent_block_end k rest' (S j) last
  end.

(** Opening minus closing braces over some lines. *)
Definition balance (ls : list string) : Z :=
  fold_right (fun l acc => (Py.count "{" l - Py.count "}" l + acc)%Z) 0%Z ls.

(** [file_at t ds f]: the file named [f] lies in the directory reached from
    the top of [t] through the sub-directories named [ds]. *)
Inductive file_at : Discovery.tree -> list string -> string -> Prop :=
| file_here : forall files dirs f,
    In f files -> file_at (Discovery.Dir files dirs) [] f
| file_below : forall files dirs d sub ds f,
    In (d, sub) dirs -> file_at sub ds f ->
    file_at (Discovery.Dir files dirs) (d :: ds) f.

(** The path [os.walk] builds for the directory reached through [ds]. *)
Definition dir_path (root : string) (ds : list string) : string :=
  fold_left Discovery.path_join ds root.

(** A hexadecimal digit, lower case. *)
Definition is_hex (c : ascii) : bool :=
  Pattern.in_range 48 57 c || Pattern.in_range 97 102 c.

Fixpoint all_hex (s : string) : bool :=
  match s with
  | EmptyString => true
  | String c s' => is_hex c && all_hex s'
  end.

(** Occurrences of the events that close a batch. *)
Definition is_inserted (e : Writer.event) : bool :=
  match e with Writer.InsertedBatch _ _ _ => true | _ => false end.

Definition is_failed (e : Writer.event) : bool :=
  match e with Writer.BatchFailed _ _ => true | _ => false end.

Definition succeeded (log : list Writer.event) : Z :=
  Z.of_nat (length (filter is_inserted log)).

Definition failed (log : list Writer.event) : Z :=
  Z.of_nat (length (filter is_failed log)).

(** The last thing printed. *)
Definition report (log : list Writer.event) : Writer.event :=
  last log Writer.NoData.

(** The span of a function record in lines. *)
Definition span (f : Extract.func) : nat :=
  Extract.end_line f - Extract.start_line f + 1.

(** The window record number [n] (0-indexed) of a file. *)
Definition window_func (lines : list string) (n : nat) : Extract.func :=
  Extract.mkFunc
    ("chunk_" ++ Py.str_of_nat (n + 1)) "code_chunk"
    (Py.join_lines (Py.slice lines (n * 50) (n * 50 + 50)))
    (n * 50 + 1) (Nat.min (n * 50 + 50) (length lines))
    (Extract.fmt_range (n * 50 + 1) (Nat.min (n * 50 + 50) (length lines))).


(** The language [process_file] selects for a path. *)
Definition language_of (file_path : string) : string :=
  Enrich.dict_get Enrich.LANGUAGE_MAPPING
                  (Py.lower (Discovery.splitext_ext file_path)) "text".

(** The three reports of the batch writer, as classes of the last
    message. *)
Inductive outcome : Type :=
| Success
| Partial (inserted_records : Z) (records : nat)
| Failure
| NoOutcome.

Definition outcome_of (e : Writer.event) : outcome :=
  match e with
  | Writer.NoData | Writer.InsertedAll _ _ => Success
  | Writer.PartiallySuccessful i n => Partial i n
  | Writer.FailedAny | Writer.InsertionFailed => Failure
  | _ => NoOutcome
  end.

End Spec.

(** ** Sample inputs *)

Module Samples.

Import Py Extract Enrich Discovery Writer.

Definition hello_world_src : string :=
  join_lines ["def hello():"; "    return 1"; EmptyString;
              "def world():"; "    return 2"].

Definition nested_dedent_src : string :=
  join_lines ["class A(object):"; "    def f(self):"; "        return 1";
              "x = 1"; "y = 2"].

Definition open_brace_src : string :=
  join_lines ["function f() {"; "  if (x) {"; "    g();"; "  }"].

Definition text_120_src : string := join_lines (repeat "some text" 120).

(** A world with one readable file, no git repository behind it. *)
Definition one_file_world (path content : string) : world :=
  mkWorld (fun p => if String.eqb p path then Some content else None)
          (fun _ => Some "2024-01-01T00:00:00")
          (fun p _ => p)
          (fun _ => None).

(** The first chunk of the two-function source; its identifier is the one
    [hashlib] gives for ["repo:a.py:hello"]. *)
Definition hello_chunk : chunk :=
  mkChunk (join_lines ["def hello():"; "    return 1"]) "a.py" "python"
          "hello" "repo" "2024-01-01T00:00:00" "1ccef51cda21"
          EmptyString EmptyString.

(** A world whose repository has an [origin] remote and one commit. *)
Definition cloned_world (path content origin : string) : world :=
  mkWorld (fun p => if String.eqb p path then Some content else None)
          (fun _ => Some "2024-01-01T00:00:00")
          (fun p _ => p)
          (fun _ => Some (mkRepo
             (fun _ => Some [mkCommit "Ada" "2024-02-02T00:00:00"
                                      "0123456789abcdef"])
             (Some origin))).

Definition origin_url : string := "https://example.org/origin.git".

(** The first chunk of the two-function source in that world, for a caller
    that passes ["caller-url"]. *)
Definition cloned_hello_chunk : chunk :=
  mkChunk (join_lines ["def hello():"; "    return 1"]) "a.py" "python"
          "hello" "caller-url" "2024-02-02T00:00:00"
          (make_chunk_id "caller-url" "a.py" "hello") "Ada" "1-3".

(** The discovery scenario of the specification, with a deeper excluded
    directory and an upper-case extension added. *)
Definition sample_tree : tree :=
  Dir ["README.md"]
      [("src", Dir ["app.js"; "MAIN.JS"; "notes.txt"]
                   [("node_modules", Dir ["deep.js"] [])]);
       ("node_modules", Dir ["lib.js"] [])].

(** A store that counts the queries it receives and rejects the second, third
    and fourth of them: the first batch goes in, the second fails on all
    three attempts, the third goes in. *)
Definition flaky_query (n : nat) (q : string) : nat * bool :=
  (S n, negb ((1 <=? n)%nat && (n <=? 3)%nat)).

Definition sixty_chunks : list record :=
  repeat [("chunk_id", VStr "0123456789ab"); ("code_chunk", VStr "x = 'y'");
          ("author", VNone)] 60.

Definition one_chunk : list record := [[("chunk_id", VStr "0123456789ab")]].

End Samples.

(** ** Configuration read by the modelled code: [KnowledgeBaseConfig] *)

Module Config.

(** [metadata_columns] after [__post_init__] with no override. *)
Definition metadata_columns : list string :=
  ["filepath"; "language"; "function_name"; "repo"; "last_modified";
   "author"; "line_range"].

Definition content_columns : list string := ["code_chunk"].

Definition id_column : string := "chunk_id".

(** The property [all_columns]. *)
Definition all_columns : list string :=
  (metadata_columns ++ content_columns)%list.

End Config.

(** ** Orchestration: [clone_repository], [ingest_repository] and
    [MindsDBClient.ingest_git_repository] *)

Module Ingest.

(** What happens to the temporary directory. *)
Inductive fs_event : Type :=
| Mkdtemp (path : string)
| Rmtree (path : string)
| RmtreeFailed (path : string).

(** The machine the ingestion runs on: the directory [tempfile.mkdtemp]
    hands out, the working copy [git.Repo.clone_from] leaves there ([None]
    when it raises), whether [shutil.rmtree(temp_dir)] of the [finally]
    block goes through, and what [process_file] reads. *)
Record host := mkHost {
  mkdtemp : string;
  clone_from : string -> string -> option Discovery.tree;
  rmtree_ok : bool;
  world_of : Enrich.world
}.

(** [clone_repository]: the path and the working copy, or [None] when the
    clone raises, after [shutil.rmtree(temp_dir, ignore_errors=True)]. *)
Definition clone_repository (h : host) (repo_url branch : string)
  : option (string * Discovery.tree) * list fs_event :=
  let temp_dir := mkdtemp h in
  match clone_from h repo_url branch with
  | Some t => (Some (temp_dir, t), [Mkdtemp temp_dir])
  | None => (None, [Mkdtemp temp_dir; Rmtree temp_dir])
  end.

Definition DEFAULT_EXTENSIONS : list string :=
  ["py"; "js"; "ts"; "java"; "go"; "rs"; "cpp"; "c"; "h"].

Definition DEFAULT_EXCLUDE_DIRS : list string :=
  [".git"; "node_modules"; "__pycache__"; ".venv"; "venv"; "build"; "dist"].

(** [x if x is not None else d] *)
Definition if_none {A} (x : option A) (d : A) : A :=
  match x with Some v => v | None => d end.

(** [ingest_repository]: the chunks, or [None] when the clone raised, and
    what was done to the temporary directory.  After the clone nothing
    raises: [os.walk] swallows its errors and [process_file] catches its
    own. *)
Definition ingest_repository (h : host) (repo_url branch : string)
    (extensions exclude_dirs : option (list string))
    (extract_git_info cleanup : bool)
  : option (list Enrich.chunk) * list fs_event :=
  let extensions := if_none extensions DEFAULT_EXTENSIONS in
  let exclude_dirs := if_none exclude_dirs DEFAULT_EXCLUDE_DIRS in
  match clone_repository h repo_url branch with
  | (None, events) => (None, events)
  | (Some (temp_dir, t), events) =>
      let code_files :=
        Discovery.discover_code_files t temp_dir extensions exclude_dirs in
      let all_chunks :=
        flat_map (fun file_path =>
                    Enrich.process_file (world_of h) file_path temp_dir
                                        repo_url extract_git_info)
                 code_files in
      (Some all_chunks,
       (events ++ if cleanup
                  then if rmtree_ok h then [Rmtree temp_dir]
                       else [RmtreeFailed temp_dir]
                  else [])%list)
  end.



Section Client.

Variable Server : Type.
Variable execute_query : Server -> string -> Server * bool.
Variable reconnect : Server -> Server.
Variable kb_name : string.


End Client.

End Ingest.

(** ** Sync jobs: the job name of [create_sync_job] and the filter of
    [list_sync_jobs] *)

Module Jobs.

(** [s.split(sep)] for a one-character [sep]. *)
Fixpoint split_on (sep : ascii) (s : string) : list string :=
  match s with
  | EmptyString => [EmptyString]
  | String c s' =>
      if Ascii.eqb c sep then EmptyString :: split_on sep s'
      else match split_on sep s' with
           | l :: ls => String c l :: ls
           | [] => [String c EmptyString]
           end
  end.

(** [s.replace(pat, '')] for a non-empty [pat]: the occurrences are found
    from the left and do not overlap; [skip] counts the characters of the
    occurrence being dropped. *)
Fixpoint delete_all (pat s : string) (skip : nat) : string :=
  match s with
  | EmptyString => EmptyString
  | String c s' =>
      match skip with
      | S k => delete_all pat s' k
      | O =>
          if String.prefix pat s
          then delete_all pat s' (String.length pat - 1)
          else String c (delete_all pat s' 0)
      end
  end.

(** [f"sync_{repo_url.split('/')[-1].replace('.git', '')}"] *)
Definition job_name (repo_url : string) : string :=
  ("sync_"
   ++ delete_all ".git" (last (split_on "/" repo_url) EmptyString) 0)%string.

(** A job of the REST answer, with string fields. *)
Definition job : Type := list (string * string).

(** One entry of [sync_jobs]. *)
Definition listed (j : job) : job :=
  [("name", Enrich.dict_get j "name" EmptyString);
   ("schedule", Enrich.dict_get j "schedule_str" EmptyString);
   ("status", "active");
   ("last_run", Enrich.dict_get j "start_at" EmptyString);
   ("next_run", Enrich.dict_get j "end_at" EmptyString)].

(** [list_sync_jobs] on the answer of [requests.get]: [None] when the call
    raises, otherwise the status code and the decoded jobs. *)
Definition list_sync_jobs (response : option (Z * list job)) : list job :=
  match response with
  | Some (status_code, all_jobs) =>
      if (status_code =? 200)%Z
      then map listed
             (filter (fun j => Py.startswith
                                 (Enrich.dict_get j "name" EmptyString) "sync_")
                     all_jobs)
      else []
  | None => []
  end.

End Jobs.

(** ** The filter stage of [semantic_search] *)

Module Search.

(** A transformed result, by its string fields. *)
Definition result : Type := list (string * string).

Fixpoint contains_char (c : ascii) (s : string) : bool :=
  match s with
  | EmptyString => false
  | String a s' => Ascii.eqb a c || contains_char c s'
  end.

(** [s.replace('%', '*')] *)
Fixpoint percent_to_star (s : string) : string :=
  match s with
  | EmptyString => EmptyString
  | String a s' =>
      String (if Ascii.eqb a "%" then "*"%char else a) (percent_to_star s')
  end.

Section Filters.

(** [fnmatch.fnmatch(name, pattern)] of the standard library. *)
Variable fnmatch : string -> string -> bool.

(** One turn of [for key, value in filters.items()]: [false] is the
    [match = False; break]. *)
Definition filter_allows (r : result) (kv : string * string) : bool :=
  let (key, value) := kv in
  if Py.mem key Config.metadata_columns then
    let result_value := Enrich.dict_get r key EmptyString in
    if contains_char "*" value || contains_char "%" value
    then fnmatch result_value (percent_to_star value)
    else if Py.startswith value ">" || Py.startswith value "<" then true
    else String.eqb result_value value
  else true.

(** [if filters: ...]: the results that every filter allows, in order. *)
Definition apply_filters (filters : list (string * string))
    (transformed_results : list result) : list result :=
  match filters with
  | [] => transformed_results
  | _ :: _ =>
      filter (fun r => forallb (filter_allows r) filters) transformed_results
  end.

End Filters.

End Search.

(** ** Vocabulary of the further statements *)

Module Vocab.

(** The lines before the first one that satisfies [p]. *)
Fixpoint prefix_before (p : string -> bool) (ls : list string) : list string :=
  match ls with
  | [] => []
  | l :: ls' => if p l then [] else l :: prefix_before p ls'
  end.

(** A later line closes a Python block opened at indentation [k]: it has
    ink and is indented by exactly [k] blanks. *)
Definition closes_block (k : nat) (l : string) : bool :=
  Spec.has_ink l && (Spec.indentation l =? k)%nat.

(** The pattern a language is scanned with, as a test on one line. *)
Definition opens_record (language line : string) : bool :=
  if String.eqb language "python"
  then match Pattern.python_def line with Some _ => true | None => false end
  else if Py.mem language ["javascript"; "typescript"]
       then match Extract.first_match Pattern.js_patterns line with
            | Some _ => true
            | None => false
            end
       else false.

Fixpoint all_ident_chars (s : string) : bool :=
  match s with
  | EmptyString => true
  | String c s' => Pattern.ident_char c && all_ident_chars s'
  end.

(** The records counted in the [InsertedBatch] messages of a log. *)
Fixpoint inserted_records (log : list Writer.event) : nat :=
  match log with
  | [] => 0
  | Writer.InsertedBatch _ _ n :: log' => n + inserted_records log'
  | _ :: log' => inserted_records log'
  end.

Definition is_reconnect (e : Writer.event) : bool :=
  match e with Writer.Reconnecting => true | _ => false end.

(** A store that also counts the queries it receives. *)
Definition counted {Server : Type}
    (execute_query : Server -> string -> Server * bool)
    (s : Server * nat) (q : string) : (Server * nat) * bool :=
  let (srv, n) := s in
  let (srv', ok) := execute_query srv q in
  ((srv', S n), ok).

Definition counted_reconnect {Server : Type} (reconnect : Server -> Server)
    (s : Server * nat) : Server * nat :=
  (reconnect (fst s), snd s).

(** Reading back a quoted literal: a doubled quote or backslash stands for
    one. *)
Fixpoint undouble (s : string) : string :=
  match s with
  | EmptyString => EmptyString
  | String a s' =>
      match s' with
      | String b r =>
          if Ascii.eqb a b
             && (Ascii.eqb a Writer.quote || Ascii.eqb a Writer.backslash)
          then String a (undouble r)
          else String a (undouble s')
      | EmptyString => String a EmptyString
      end
  end.

Fixpoint drop_last (s : string) : string :=
  match s with
  | EmptyString => EmptyString
  | String c EmptyString => EmptyString
  | String c s' => String c (drop_last s')
  end.

(** The text of a quoted literal, [None] when it does not open with a
    quote. *)
Definition unquote (lit : string) : option string :=
  match lit with
  | String q body =>
      if Ascii.eqb q Writer.quote then Some (undouble (drop_last body))
      else None
  | EmptyString => None
  end.

(** Every name of a tree of files is one path component: not empty, without
    separator. *)
Definition component (name : string) : bool :=
  Py.truthy name && negb (Search.contains_char "/" name).

Fixpoint components (t : Discovery.tree) : bool :=
  match t with
  | Discovery.Dir files dirs =>
      forallb component files
      && (fix each (ds : list (string * Discovery.tree)) : bool :=
            match ds with
            | [] => true
            | (d, sub) :: ds' => component d && components sub && each ds'
            end) dirs
  end.

(** The name the brace branch picks from the groups of a match. *)
Definition js_name (gs : Pattern.groups) : string :=
  if (3 <=? length gs)%nat then Pattern.group gs 3 else Pattern.group gs 2.

End Vocab.

(** ** A machine for the orchestration scenarios *)

Module Scenes.

(** A host whose clone holds the two-function source as [a.py], next to a
    dependency directory. *)
Definition sample_host : Ingest.host :=
  Ingest.mkHost "/tmp/semantic_nav_1"
    (fun _ _ =>
       Some (Discovery.Dir ["a.py"]
               [("node_modules", Discovery.Dir ["lib.js"] [])]))
    true
    (Enrich.mkWorld
       (fun p => if String.eqb p "/tmp/semantic_nav_1/a.py"
                 then Some Samples.hello_world_src else None)
       (fun _ => Some "2024-01-01T00:00:00")
       (fun _ _ => "a.py")
       (fun _ => None)).

(** The second chunk of the two-function source. *)
Definition world_chunk : Enrich.chunk :=
  Enrich.mkChunk (Py.join_lines ["def world():"; "    return 2"]) "a.py"
                 "python" "world" "repo" "2024-01-01T00:00:00"
                 (Enrich.make_chunk_id "repo" "a.py" "world")
                 EmptyString EmptyString.



End Scenes.

(* ================================================================== *)
(** * Part II: properties *)
(* ================================================================== *)

Import Py Pattern Extract Spec Samples.


(** ** White space and ink *)

Lemma rstrip_truthy (s : string) : truthy (rstrip s) = has_ink s.
Proof.
  induction s as [|c s IH]; simpl; [reflexivity|].
  destruct (rstrip s); simpl in *; rewrite <- IH.
  - destruct (isspace c); reflexivity.
  - apply eq_sym, orb_true_r.
Qed.

Lemma rstrip_ink (s : string) : has_ink (rstrip s) = has_ink s.
Proof.
  induction s as [|c s IH]; simpl; [reflexivity|].
  destruct (rstrip s) as [|a r]; simpl in *; rewrite <- IH.
  - destruct (isspace c) eqn:E; simpl; rewrite ?E; reflexivity.
  - reflexivity.
Qed.

Lemma lstrip_ink (s : string) : has_ink (lstrip s) = has_ink s.
Proof.
  induction s as [|c s IH]; simpl; [reflexivity|].
  destruct (isspace c) eqn:E; simpl; [assumption | now rewrite E].
Qed.

Lemma strip_truthy (s : string) : truthy (strip s) = has_ink s.
Proof. unfold strip. now rewrite rstrip_truthy, lstrip_ink. Qed.

Lemma strip_ink (s : string) : has_ink (strip s) = has_ink s.
Proof. unfold strip. now rewrite rstrip_ink, lstrip_ink. Qed.

Lemma has_ink_app (a b : string) :
  has_ink (a ++ b) = has_ink a || has_ink b.
Proof.
  induction a as [|c a IH]; simpl; [reflexivity|].
  now rewrite IH, orb_assoc.
Qed.

Lemma has_ink_join (ls : list string) :
  has_ink (join_lines ls) = existsb has_ink ls.
Proof.
  unfold join_lines.
  induction ls as [|l ls IH]; [reflexivity|].
  destruct ls as [|l' ls].
  - simpl. now rewrite orb_false_r.
  - change (has_ink (l ++ (String newline EmptyString
                           ++ String.concat (String newline EmptyString) (l' :: ls)))%string
            = has_ink l || existsb has_ink (l' :: ls)).
    rewrite has_ink_app. f_equal. exact IH.
Qed.

Lemma has_ink_split (s : string) :
  existsb has_ink (split_lines s) = has_ink s.
Proof.
  induction s as [|c s IH]; [reflexivity|].
  simpl split_lines. destruct (Ascii.eqb c newline) eqn:E.
  - apply Ascii.eqb_eq in E. subst c. simpl. exact IH.
  - destruct (split_lines s) as [|l ls]; simpl in *; rewrite <- IH.
    + now rewrite !orb_false_r.
    + now rewrite orb_assoc.
Qed.

Lemma split_lines_nonempty (s : string) : split_lines s <> [].
Proof.
  destruct s as [|c s]; simpl; [discriminate|].
  destruct (Ascii.eqb c newline); [discriminate|].
  destruct (split_lines s); discriminate.
Qed.

(** ** A line that matches a pattern carries ink *)

Lemma ident_start_not_space (c : ascii) :
  ident_start c = true -> isspace c = false.
Proof.
  destruct c as [[] [] [] [] [] [] [] []]; vm_compute; intro H;
    first [reflexivity | discriminate H].
Qed.

Lemma spaces_star_ink (s : string) :
  has_ink (snd (spaces_star s)) = has_ink s.
Proof.
  induction s as [|c s IH]; simpl; [reflexivity|].
  destruct (isspace c) eqn:E.
  - destruct (spaces_star s); simpl in *. exact IH.
  - simpl. now rewrite E.
Qed.

Lemma literal_ink (w s r : string) :
  literal w s = Some r -> has_ink r = true -> has_ink s = true.
Proof.
  revert s. induction w as [|a w IH]; intros s H Hr; simpl in H.
  - now inversion H; subst.
  - destruct s as [|b s]; [discriminate|].
    destruct (Ascii.eqb a b); [|discriminate].
    simpl. rewrite (IH _ H Hr). apply orb_true_r.
Qed.

Lemma alternatives_ink (ws : list string) (s w r : string) :
  alternatives ws s = Some (w, r) -> has_ink r = true -> has_ink s = true.
Proof.
  induction ws as [|w' ws IH]; simpl; [discriminate|].
  destruct (literal w' s) eqn:E; intros H Hr.
  - inversion H; subst. eapply literal_ink; eassumption.
  - now apply IH.
Qed.

Lemma identifier_ink (s g r : string) :
  identifier s = Some (g, r) -> has_ink s = true.
Proof.
  destruct s as [|c s]; simpl; [discriminate|].
  destruct (ident_start c) eqn:E; [|discriminate]. intros _.
  now rewrite (ident_start_not_space _ E).
Qed.

Lemma spaces_plus_ink (s r : string) :
  spaces_plus s = Some r -> has_ink s = has_ink r.
Proof.
  unfold spaces_plus. pose proof (spaces_star_ink s) as H.
  destruct (spaces_star s) as [w r']. simpl in H.
  destruct (truthy w); [|discriminate].
  intros E. inversion E; subst. now symmetry.
Qed.

Lemma keyword_head_ink (kws : list string) (line : string) gs r :
  keyword_head kws line = Some (gs, r) -> has_ink line = true.
Proof.
  unfold keyword_head. pose proof (spaces_star_ink line) as H0.
  destruct (spaces_star line) as [g1 r1]. simpl in H0.
  destruct (alternatives kws r1) as [[g2 r2]|] eqn:E1; [|discriminate].
  destruct (spaces_plus r2) as [r3|] eqn:E2; [|discriminate].
  destruct (identifier r3) as [[g3 r4]|] eqn:E3; [|discriminate].
  intros _. rewrite <- H0.
  eapply alternatives_ink; [eassumption|].
  rewrite (spaces_plus_ink _ _ E2).
  eapply identifier_ink; eassumption.
Qed.

Lemma python_def_ink (line : string) gs :
  python_def line = Some gs -> has_ink line = true.
Proof.
  unfold python_def.
  destruct (keyword_head _ line) as [[gs' r]|] eqn:E; [|discriminate].
  intros _. eapply keyword_head_ink; eassumption.
Qed.

Lemma js_method_ink (line : string) gs :
  js_method line = Some gs -> has_ink line = true.
Proof.
  unfold js_method. pose proof (spaces_star_ink line) as H0.
  destruct (spaces_star line) as [g1 r1]. simpl in H0.
  destruct (identifier r1) as [[g2 r2]|] eqn:E; [|discriminate].
  intros _. rewrite <- H0. eapply identifier_ink; eassumption.
Qed.

Lemma js_patterns_ink (line : string) gs :
  first_match js_patterns line = Some gs -> has_ink line = true.
Proof.
  unfold js_patterns, first_match, js_function, js_arrow, js_class.
  destruct (keyword_head ["function"] line) as [[g r]|] eqn:E1;
    [intros _; eapply keyword_head_ink; eassumption|].
  destruct (keyword_head ["const"; "let"; "var"] line) as [[g r]|] eqn:E2;
    [intros _; eapply keyword_head_ink; eassumption|].
  destruct (keyword_head ["class"] line) as [[g r]|] eqn:E3;
    [intros _; eapply keyword_head_ink; eassumption|].
  destruct (js_method line) eqn:E4; [|discriminate].
  intros _. eapply js_method_ink; eassumption.
Qed.

(** ** The scanning loops *)

Lemma skipn_cons_inv {A} (i : nat) (l : list A) (x : A) (t : list A) :
  skipn i l = x :: t ->
  skipn (S i) l = t /\ nth_error l i = Some x /\ S i + length t = length l.
Proof.
  revert l. induction i as [|i IH]; intros [|y l] H; simpl in H;
    try discriminate.
  - inversion H; subst. simpl. auto.
  - destruct (IH _ H) as (H1 & H2 & H3). simpl. repeat split; auto.
Qed.

Lemma skipn_nil_le {A} (i j : nat) (l : list A) :
  skipn i l = [] -> i <= j -> skipn j l = [].
Proof.
  intros H Hij. apply skipn_all_iff. apply skipn_all_iff in H. lia.
Qed.

Lemma slice_from {A} (l : list A) (i e : nat) (x : A) (t : list A) :
  skipn i l = x :: t -> i <= e ->
  slice l i (e + 1) = x :: firstn (e - i) t.
Proof.
  intros H Hie. unfold slice. rewrite H.
  replace (e + 1 - i) with (S (e - i)) by lia. reflexivity.
Qed.

Lemma python_block_end_bounds (k : nat) (rest : list string) (i j dflt n : nat) :
  i + 1 <= j -> i <= dflt < n -> j + length rest <= n ->
  i <= python_block_end k rest j dflt < n.
Proof.
  revert j. induction rest as [|l rest IH]; intros j Hj Hd Hn; simpl in *.
  - exact Hd.
  - destruct (truthy (strip l) && negb (startswith l (spaces (k + 1))));
      [destruct (startswith l (spaces k) && truthy (strip l))|];
      try (apply IH; lia); lia.
Qed.

Lemma js_block_end_bounds (b : Z) (rest : list string) (i j n : nat) :
  i + 1 <= j -> i < n -> j + length rest <= n ->
  i <= js_block_end b rest j i < n.
Proof.
  revert b j. induction rest as [|l rest IH]; intros b j Hj Hd Hn; simpl in *.
  - lia.
  - destruct (_ =? 0)%Z; [lia | apply IH; lia].
Qed.

(** Every function the Python loop records comes from a matching line. *)
Lemma python_scan_In (lines : list string) :
  forall todo i f,
    skipn i lines = todo -> In f (python_scan lines todo i) ->
    exists i' line after gs,
      i <= i' /\ skipn i' lines = line :: after /\
      python_def line = Some gs /\ f = python_func lines i' after gs.
Proof.
  induction todo as [|line todo IH]; intros i f Hs Hin; simpl in Hin;
    [contradiction|].
  destruct (skipn_cons_inv _ _ _ _ Hs) as (Hs' & _ & _).
  assert (Hrec : In f (python_scan lines todo (S i)) ->
                 exists i' line after gs,
                   i <= i' /\ skipn i' lines = line :: after /\
                   python_def line = Some gs /\ f = python_func lines i' after gs).
  { intros H. destruct (IH _ _ Hs' H) as (i' & l' & a' & gs' & ? & ? & ? & ?).
    exists i', l', a', gs'. repeat split; auto; lia. }
  destruct (python_def line) as [gs|] eqn:E; [|auto].
  destruct Hin as [<-|Hin]; [|auto].
  exists i, line, todo, gs. auto.
Qed.

Lemma js_scan_In (lines : list string) :
  forall todo i f,
    skipn i lines = todo -> In f (js_scan lines todo i) ->
    exists i' line after gs,
      i <= i' /\ skipn i' lines = line :: after /\
      first_match js_patterns line = Some gs /\
      f = js_func lines i' line after gs.
Proof.
  induction todo as [|line todo IH]; intros i f Hs Hin; cbn [js_scan] in Hin;
    [contradiction|].
  destruct (skipn_cons_inv _ _ _ _ Hs) as (Hs' & _ & _).
  assert (Hrec : In f (js_scan lines todo (S i)) ->
                 exists i' line after gs,
                   i <= i' /\ skipn i' lines = line :: after /\
                   first_match js_patterns line = Some gs /\
                   f = js_func lines i' line after gs).
  { intros H. destruct (IH _ _ Hs' H) as (i' & l' & a' & gs' & ? & ? & ? & ?).
    exists i', l', a', gs'. repeat split; auto; lia. }
  destruct (first_match js_patterns line) as [gs|] eqn:E; [|auto].
  destruct Hin as [<-|Hin]; [|auto].
  exists i, line, todo, gs. auto.
Qed.

(** Conversely, every matching line is recorded. *)
Lemma js_scan_complete (lines : list string) :
  forall todo i i' line after gs,
    skipn i lines = todo -> i <= i' -> skipn i' lines = line :: after ->
    first_match js_patterns line = Some gs ->
    In (js_func lines i' line after gs) (js_scan lines todo i).
Proof.
  induction todo as [|l todo IH]; intros i i' line after gs Hs Hle Hs' Hm.
  - rewrite (skipn_nil_le _ _ _ Hs Hle) in Hs'. discriminate.
  - cbn [js_scan]. destruct (skipn_cons_inv _ _ _ _ Hs) as (Hn & _ & _).
    destruct (Nat.eq_dec i i') as [<-|Hne].
    + rewrite Hs in Hs'. inversion Hs'; subst. rewrite Hm. now left.
    + assert (In (js_func lines i' line after gs) (js_scan lines todo (S i)))
        by (eapply IH; eauto; lia).
      destruct (first_match js_patterns l); [now right | assumption].
Qed.

Lemma range_step_In (stop step i : nat) :
  0 < step -> In i (range_step stop step) ->
  i < stop /\ exists k, i = k * step.
Proof.
  intros Hstep Hin. unfold range_step in Hin.
  apply in_map_iff in Hin. destruct Hin as (k & <- & Hk).
  apply in_seq in Hk. split; [|eauto].
  pose proof (Nat.Div0.mul_div_le (stop + step - 1) step) as H.
  nia.
Qed.

Lemma windows_In (lines : list string) (f : func) :
  In f (windows lines) ->
  exists n,
    n * chunk_size < length lines /\
    truthy (strip (join_lines (slice lines (n * chunk_size)
                                     (n * chunk_size + chunk_size)))) = true /\
    f = mkFunc ("chunk_" ++ str_of_nat (n + 1)) "code_chunk"
          (join_lines (slice lines (n * chunk_size)
                             (n * chunk_size + chunk_size)))
          (n * chunk_size + 1)
          (Nat.min (n * chunk_size + chunk_size) (length lines))
          (fmt_range (n * chunk_size + 1)
                     (Nat.min (n * chunk_size + chunk_size) (length lines))).
Proof.
  unfold windows. intros Hin. apply in_flat_map in Hin.
  destruct Hin as (i & Hi & Hf).
  apply range_step_In in Hi; [|unfold chunk_size; lia].
  destruct Hi as (Hlt & k & ->).
  unfold window in Hf.
  destruct (truthy _) eqn:E; [|contradiction].
  destruct Hf as [<-|[]]. exists k. repeat split; auto.
  rewrite Nat.div_mul by (unfold chunk_size; lia). reflexivity.
Qed.

Lemma extract_cases (content language : string) (f : func) :
  In f (extract_functions_fallback content language) ->
  In f (python_scan (split_lines content) (split_lines content) 0)
  \/ In f (js_scan (split_lines content) (split_lines content) 0)
  \/ In f (windows (split_lines content)).
Proof.
  unfold extract_functions_fallback, pattern_functions.
  generalize (split_lines content) as lines. intros lines H.
  destruct (String.eqb language "python").
  - destruct (python_scan lines lines 0); auto.
  - destruct (mem language ["javascript"; "typescript"]).
    + destruct (js_scan lines lines 0); auto.
    + auto.
Qed.

(** What is known of any extracted function: its 1-indexed inclusive line
    span lies in the file and its content carries ink. *)
Lemma extract_func_facts (content language : string) (f : func) :
  In f (extract_functions_fallback content language) ->
  1 <= start_line f /\ start_line f <= end_line f
  /\ end_line f <= length (split_lines content)
  /\ has_ink (Extract.content f) = true.
Proof.
  intros H. apply extract_cases in H.
  set (lines := split_lines content) in *.
  destruct H as [H|[H|H]].
  - apply python_scan_In with (i := 0) in H; [|reflexivity].
    destruct H as (i & line & after & gs & _ & Hs & Hm & ->).
    destruct (skipn_cons_inv _ _ _ _ Hs) as (_ & _ & Hlen).
    pose proof (python_block_end_bounds
                  (String.length (group gs 1)) after i (i + 1)
                  (length lines - 1) (length lines)) as Hb.
    unfold python_func. cbv zeta. simpl start_line. simpl end_line.
    simpl Extract.content.
    assert (Hb' := Hb ltac:(lia) ltac:(lia) ltac:(lia)).
    repeat split; try lia.
    rewrite (slice_from _ _ _ _ _ Hs) by lia.
    rewrite has_ink_join. simpl.
    now rewrite (python_def_ink _ _ Hm).
  - apply js_scan_In with (i := 0) in H; [|reflexivity].
    destruct H as (i & line & after & gs & _ & Hs & Hm & ->).
    destruct (skipn_cons_inv _ _ _ _ Hs) as (_ & _ & Hlen).
    pose proof (js_block_end_bounds
                  (count "{" line - count "}" line) after i (i + 1)
                  (length lines)) as Hb.
    unfold js_func. cbv zeta. simpl start_line. simpl end_line.
    simpl Extract.content.
    assert (Hb' := Hb ltac:(lia) ltac:(lia) ltac:(lia)).
    repeat split; try lia.
    rewrite (slice_from _ _ _ _ _ Hs) by lia.
    rewrite has_ink_join. simpl.
    now rewrite (js_patterns_ink _ _ Hm).
  - apply windows_In in H. destruct H as (n & Hn & Hink & ->).
    simpl. unfold chunk_size in *. repeat split; try lia.
    now rewrite <- strip_truthy.
Qed.

Lemma range_step_complete (stop step k : nat) :
  0 < step -> k * step < stop -> In (k * step) (range_step stop step).
Proof.
  intros Hstep Hk. unfold range_step. apply in_map_iff.
  exists k. split; [reflexivity|]. apply in_seq. split; [lia|]. simpl.
  pose proof (Nat.div_mod_eq (stop + step - 1) step) as H.
  pose proof (Nat.mod_upper_bound (stop + step - 1) step ltac:(lia)) as H'.
  nia.
Qed.

Lemma window_complete (lines : list string) (n : nat) :
  n * chunk_size < length lines ->
  truthy (strip (join_lines (slice lines (n * chunk_size)
                                   (n * chunk_size + chunk_size)))) = true ->
  In (mkFunc ("chunk_" ++ str_of_nat (n + 1)) "code_chunk"
        (join_lines (slice lines (n * chunk_size)
                           (n * chunk_size + chunk_size)))
        (n * chunk_size + 1)
        (Nat.min (n * chunk_size + chunk_size) (length lines))
        (fmt_range (n * chunk_size + 1)
                   (Nat.min (n * chunk_size + chunk_size) (length lines))))
     (windows lines).
Proof.
  intros Hn Hink. unfold windows. apply in_flat_map.
  exists (n * chunk_size). split.
  - apply range_step_complete; [unfold chunk_size; lia | assumption].
  - unfold window. rewrite Hink.
    rewrite Nat.div_mul by (unfold chunk_size; lia). now left.
Qed.

(** A line with ink makes the window that holds it non-blank. *)
Lemma inked_line_inks_window (lines : list string) (j : nat) (l : string) :
  nth_error lines j = Some l -> has_ink l = true ->
  truthy (strip (join_lines
    (slice lines (j / chunk_size * chunk_size)
                 (j / chunk_size * chunk_size + chunk_size)))) = true.
Proof.
  intros Hj Hl. rewrite strip_truthy, has_ink_join.
  apply existsb_exists. exists l. split; [|assumption].
  apply nth_error_In with (n := j mod chunk_size).
  unfold slice. rewrite nth_error_firstn, nth_error_skipn.
  pose proof (Nat.div_mod_eq j chunk_size) as Hdm.
  pose proof (Nat.mod_upper_bound j chunk_size) as Hm.
  unfold chunk_size in *.
  replace (j / 50 * 50 + 50 - j / 50 * 50) with 50 by lia.
  destruct (Nat.ltb_spec (j mod 50) 50); [|lia].
  replace (j / 50 * 50 + j mod 50) with j by lia. assumption.
Qed.

Lemma windows_nonempty (lines : list string) :
  existsb has_ink lines = true -> windows lines <> [].
Proof.
  intros H. apply existsb_exists in H. destruct H as (l & Hin & Hl).
  apply In_nth_error in Hin. destruct Hin as (j & Hj).
  assert (Hlt : j < length lines) by (apply nth_error_Some; congruence).
  pose proof (inked_line_inks_window _ _ _ Hj Hl) as Hw.
  apply window_complete in Hw.
  - intros E. rewrite E in Hw. contradiction.
  - pose proof (Nat.div_mod_eq j chunk_size). unfold chunk_size in *. lia.
Qed.

(** ** Line spans (C7) *)





(** ** The two-function scenario (C3) *)

(** C3 as stated fails on the code: the two functions are found, but
    [hello] does not span two lines. *)
Lemma hello_world_spans_are_not_both_two :
  ~ (exists c1 c2,
        extract_functions_fallback hello_world_src "python" = [c1; c2]
        /\ name c1 = "hello" /\ name c2 = "world"
        /\ span c1 = 2 /\ span c2 = 2).
Proof.
  intros (c1 & c2 & H & _ & _ & H1 & _).
  vm_compute in H. inversion H; subst c1 c2. vm_compute in H1. discriminate.
Qed.

(** C3, amended.  Extraction of the two-function source yields exactly two
    records, [hello] and [world]; [hello] spans lines 1 to 3, since the blank
    line before the next [def] belongs to its block, and [world] spans lines
    4 to 5; trimmed, as [process_file] stores it, each content has two
    lines. *)
Theorem hello_world_extraction :
  map (fun f => (name f, start_line f, end_line f, span f,
                 split_lines (strip (Extract.content f))))
      (extract_functions_fallback hello_world_src "python")
  = [("hello", 1, 3, 3, ["def hello():"; "    return 1"]);
     ("world", 4, 5, 2, ["def world():"; "    return 2"])].
Proof. vm_compute. reflexivity. Qed.

(** ** Where a Python block ends (C2) *)

Lemma startswith_spaces (l : string) (n : nat) :
  startswith l (spaces n) = (n <=? indentation l)%nat.
Proof.
  unfold startswith. revert l. induction n as [|n IH]; intros l.
  - destruct l; reflexivity.
  - destruct l as [|c l]; [reflexivity|].
    cbn [spaces prefix indentation].
    destruct (ascii_dec " " c) as [<-|Hne].
    + rewrite Ascii.eqb_refl. apply IH.
    + destruct (Ascii.eqb c " ") eqn:E; [|reflexivity].
      apply Ascii.eqb_eq in E. congruence.
Qed.

(** The loop of the source stops at the first later line with ink that is
    indented by exactly [k] blanks. *)
Lemma python_block_end_exact (k : nat) (rest : list string) (j dflt : nat) :
  python_block_end k rest j dflt
  = match rest with
    | [] => dflt
    | l :: rest' =>
        if has_ink l && (indentation l =? k)%nat then j - 1
        else python_block_end k rest' (S j) dflt
    end.
Proof.
  destruct rest as [|l rest]; [reflexivity|]. simpl.
  rewrite !startswith_spaces, strip_truthy.
  destruct (has_ink l); simpl; [|reflexivity].
  destruct (Nat.leb_spec (k + 1) (indentation l)),
           (Nat.leb_spec k (indentation l)),
           (Nat.eqb_spec (indentation l) k); simpl; try reflexivity; lia.
Qed.

(** As long as no later line with ink is indented by less than the opening
    line, the loop ends the block where the specification says. *)
Lemma python_block_end_without_deeper_dedent (k : nat) (rest : list string) :
  Forall (fun l => has_ink l = true -> k <= indentation l) rest ->
  forall j dflt,
    python_block_end k rest j dflt = dedent_block_end k rest j dflt.
Proof.
  induction 1 as [|l rest Hl _ IH]; intros j dflt; [reflexivity|].
  rewrite python_block_end_exact. simpl. rewrite IH.
  destruct (has_ink l); simpl; [|reflexivity].
  specialize (Hl eq_refl).
  destruct (Nat.eqb_spec (indentation l) k), (Nat.leb_spec (indentation l) k);
    try reflexivity; lia.
Qed.

Lemma python_block_end_top_level (rest : list string) (j dflt : nat) :
  python_block_end 0 rest j dflt = dedent_block_end 0 rest j dflt.
Proof.
  apply python_block_end_without_deeper_dedent.
  apply Forall_forall. intros; lia.
Qed.

(** C2, at the input where the code departs from it.  The method [f] opens
    at indentation 4 on line 2; the first later line with ink indented by at
    most 4 is [x = 1] on line 4, so the block should end on line 3, where the
    block of the enclosing class ends.  The loop of the source only stops at
    a line indented by exactly 4 blanks, finds none, and lets the block of
    [f] run to the last line, 5, past the end of its class. *)
Theorem python_block_overruns_deeper_dedent :
  map (fun f => (name f, start_line f, end_line f))
      (extract_functions_fallback nested_dedent_src "python")
  = [("A", 1, 3); ("f", 2, 5)]
  /\ python_def "    def f(self):" = Some ["    "; "def"; "f"]
  /\ dedent_block_end 4 ["        return 1"; "x = 1"; "y = 2"] 2 4 + 1 = 3.
Proof. vm_compute. repeat split; reflexivity. Qed.

(** ** A brace block that never closes (C10) *)

Lemma js_block_end_never_zero (after : list string) :
  forall (b : Z) (j dflt : nat),
    (forall m, 1 <= m <= length after ->
               (b + balance (firstn m after))%Z <> 0%Z) ->
    js_block_end b after j dflt = dflt.
Proof.
  induction after as [|l after IH]; intros b j dflt H; [reflexivity|].
  simpl. pose proof (H 1 ltac:(simpl; lia)) as H1. simpl in H1.
  destruct (Z.eqb_spec (b + (count "{" l - count "}" l)) 0) as [E|_]; [lia|].
  apply IH. intros m Hm.
  specialize (H (S m) ltac:(simpl; lia)). simpl in H. lia.
Qed.

Lemma nth_error_skipn_cons {A} (l : list A) (i : nat) (x : A) :
  nth_error l i = Some x -> skipn i l = x :: skipn (S i) l.
Proof.
  revert l. induction i as [|i IH]; intros [|y l] H; simpl in H;
    try discriminate.
  - now inversion H.
  - now apply IH.
Qed.

Lemma js_language_extract (content language : string) :
  mem language ["javascript"; "typescript"] = true ->
  js_scan (split_lines content) (split_lines content) 0 <> [] ->
  extract_functions_fallback content language
  = js_scan (split_lines content) (split_lines content) 0.
Proof.
  intros Hl Hne. unfold extract_functions_fallback, pattern_functions.
  rewrite Hl.
  assert (E : String.eqb language "python" = false).
  { simpl in Hl. rewrite orb_false_r in Hl. apply orb_prop in Hl.
    destruct Hl as [Hl|Hl]; apply String.eqb_eq in Hl; subst; reflexivity. }
  rewrite E.
  destruct (js_scan (split_lines content) (split_lines content) 0);
    [contradiction | reflexivity].
Qed.

(** C10.  In a JavaScript or TypeScript file, take a line [i] (0-indexed)
    that matches one of the patterns and whose running brace balance,
    counted from that line, is non-zero at every later line of the file.
    Then the record opened at that line is emitted with only the opening
    line: [end_line = start_line = i + 1] and its content is that line.  It
    does not extend to the end of the file. *)
Theorem js_unclosed_block_is_one_line
    (content language : string) (i : nat) (line : string) :
  mem language ["javascript"; "typescript"] = true ->
  nth_error (split_lines content) i = Some line ->
  first_match js_patterns line <> None ->
  (forall j, i < j < length (split_lines content) ->
             balance (slice (split_lines content) i (j + 1)) <> 0%Z) ->
  (exists f, In f (extract_functions_fallback content language)
             /\ start_line f = i + 1 /\ end_line f = i + 1
             /\ Extract.content f = line)
  /\ (forall f, In f (extract_functions_fallback content language) ->
                start_line f = i + 1 ->
                end_line f = start_line f /\ Extract.content f = line).
Proof.
  intros Hlang Hi Hm Hbal.
  set (lines := split_lines content) in *.
  destruct (first_match js_patterns line) as [gs|] eqn:Em; [|congruence].
  pose proof (nth_error_skipn_cons _ _ _ Hi) as Hs.
  set (after := skipn (S i) lines) in *.
  destruct (skipn_cons_inv _ _ _ _ Hs) as (_ & _ & Hlen).
  assert (Hend : js_block_end (count "{" line - count "}" line) after (i + 1) i = i).
  { apply js_block_end_never_zero. intros m Hm'.
    specialize (Hbal (i + m) ltac:(lia)).
    rewrite (slice_from _ _ _ _ _ Hs) in Hbal by lia.
    replace (i + m - i) with m in Hbal by lia. simpl in Hbal. lia. }
  assert (Hf : forall gs', js_func lines i line after gs'
               = mkFunc (if (3 <=? length gs')%nat then group gs' 3 else group gs' 2)
                        "function" line (i + 1) (i + 1)
                        (fmt_range (i + 1) (i + 1))).
  { intros gs'. unfold js_func. cbv zeta. rewrite Hend.
    rewrite (slice_from _ _ _ _ _ Hs) by lia.
    rewrite Nat.sub_diag. reflexivity. }
  pose proof (js_scan_complete lines lines 0 i line after gs eq_refl
                ltac:(lia) Hs Em) as Hin.
  assert (Hext : extract_functions_fallback content language
                 = js_scan lines lines 0).
  { apply js_language_extract; [assumption|].
    fold lines. intros E. rewrite E in Hin. contradiction. }
  rewrite Hext. split.
  - exists (js_func lines i line after gs). split; [assumption|].
    rewrite Hf. auto.
  - intros f Hfin Hstart.
    apply js_scan_In with (i := 0) in Hfin; [|reflexivity].
    destruct Hfin as (i' & line' & after' & gs' & _ & Hs' & _ & ->).
    assert (i' = i) by (unfold js_func in Hstart; simpl in Hstart; lia).
    subst i'. rewrite Hs in Hs'. inversion Hs'; subst line' after'.
    rewrite Hf. auto.
Qed.

(** The theorem at a function whose inner block closes but whose own brace
    never does. *)
Lemma js_unclosed_block_is_one_line_witness :
  nth_error (split_lines open_brace_src) 0 = Some "function f() {"
  /\ exists f, In f (extract_functions_fallback open_brace_src "javascript")
               /\ start_line f = 1 /\ end_line f = 1
               /\ Extract.content f = "function f() {".
Proof.
  split; [reflexivity|].
  refine (proj1 (js_unclosed_block_is_one_line
                   open_brace_src "javascript" 0 "function f() {" _ _ _ _)).
  - reflexivity.
  - reflexivity.
  - vm_compute. discriminate.
  - intros j Hj.
    assert (Hc : j = 1 \/ j = 2 \/ j = 3) by (vm_compute in Hj; lia).
    destruct Hc as [-> | [-> | ->]]; vm_compute; discriminate.
Defined.

(** ** Fall-back windows (C4) *)

Lemma extract_is_windows (content language : string) :
  pattern_functions (split_lines content) language = [] ->
  extract_functions_fallback content language = windows (split_lines content).
Proof.
  unfold extract_functions_fallback. now intros ->.
Qed.

Lemma extract_nonempty (content language : string) :
  has_ink content = true -> extract_functions_fallback content language <> [].
Proof.
  intros H. unfold extract_functions_fallback.
  destruct (pattern_functions (split_lines content) language);
    [|discriminate].
  apply windows_nonempty. now rewrite has_ink_split.
Qed.




(** ** Enrichment: [process_file] *)

Import Enrich.

Lemma process_file_In (w : world) (file_path repo_path repo_url : string)
    (git : bool) (c : chunk) :
  In c (process_file w file_path repo_path repo_url git) ->
  exists content md f,
    read_text w file_path = Some content
    /\ extract_git_metadata w repo_path file_path git = Some md
    /\ In f (extract_functions_fallback content (language_of file_path))
    /\ c = make_chunk w file_path repo_path repo_url git
                      (language_of file_path) md f.
Proof.
  unfold process_file. fold (language_of file_path).
  destruct (read_text w file_path) as [content|]; [|contradiction].
  destruct (negb (truthy (strip content))); [contradiction|].
  destruct (extract_git_metadata w repo_path file_path git) as [md|];
    [|contradiction].
  intros H. apply in_map_iff in H. destruct H as (f & <- & Hf).
  exists content, md, f. auto.
Qed.

(** ** Emitted content is never blank (C6) *)

(** C6.  Every record that extraction produces (Python pattern, brace
    pattern or fall-back window) has content that is not empty once trimmed,
    and so has every chunk that [process_file] emits: its [code_chunk], the
    trimmed content, is not the empty string.  Blank candidates are never
    emitted. *)
Theorem emitted_content_not_blank :
  (forall content language f,
      In f (extract_functions_fallback content language) ->
      truthy (strip (Extract.content f)) = true)
  /\ (forall w file_path repo_path repo_url git c,
         In c (process_file w file_path repo_path repo_url git) ->
         code_chunk c <> EmptyString
         /\ truthy (strip (code_chunk c)) = true).
Proof.
  split.
  - intros content language f H. rewrite strip_truthy.
    now destruct (extract_func_facts content language f H) as (_ & _ & _ & ?).
  - intros w file_path repo_path repo_url git c H.
    apply process_file_In in H.
    destruct H as (content & md & f & _ & _ & Hf & ->).
    destruct (extract_func_facts _ _ _ Hf) as (_ & _ & _ & Hink).
    unfold make_chunk. cbn [code_chunk].
    assert (Ht : truthy (strip (Extract.content f)) = true)
      by now rewrite strip_truthy.
    split.
    + intros E. rewrite E in Ht. discriminate.
    + now rewrite strip_truthy, strip_ink.
Qed.

Lemma hello_chunk_emitted :
  In hello_chunk
     (process_file (one_file_world "a.py" hello_world_src)
                   "a.py" "." "repo" false).
Proof. vm_compute. left. reflexivity. Defined.

(** The theorem at the first chunk of the two-function source. *)
Lemma emitted_content_not_blank_witness :
  In hello_chunk
     (process_file (one_file_world "a.py" hello_world_src)
                   "a.py" "." "repo" false)
  /\ code_chunk hello_chunk <> EmptyString.
Proof.
  split; [exact hello_chunk_emitted|].
  exact (proj1 (proj2 emitted_content_not_blank _ _ _ _ _ _
                      hello_chunk_emitted)).
Defined.

(** ** The chunk identifier (C5) *)

Lemma le_bytes_length (n : nat) (x : Z) : length (MD5.le_bytes n x) = n.
Proof. unfold MD5.le_bytes. now rewrite length_map, length_seq. Qed.

Lemma digest_length (msg : list Z) : length (MD5.digest msg) = 16.
Proof.
  unfold MD5.digest.
  destruct (fold_left MD5.block _ MD5.init) as [[[a b] c] d].
  now rewrite !length_app, !le_bytes_length.
Qed.

Lemma hex_length (bs : list Z) :
  String.length (MD5.hex bs) = 2 * length bs.
Proof. induction bs as [|b bs IH]; simpl; [reflexivity | rewrite IH; lia]. Qed.

Lemma hex_digit_is_hex (n : Z) : is_hex (MD5.hex_digit n) = true.
Proof.
  unfold MD5.hex_digit. generalize (Z.to_nat n) as k. intros k.
  do 16 (destruct k as [|k]; [reflexivity|]).
  simpl. destruct k; reflexivity.
Qed.

Lemma hex_all_hex (bs : list Z) : all_hex (MD5.hex bs) = true.
Proof.
  induction bs as [|b bs IH]; simpl; [reflexivity|].
  now rewrite !hex_digit_is_hex, IH.
Qed.

Lemma substring_prefix_length (n : nat) (s : string) :
  n <= String.length s -> String.length (substring 0 n s) = n.
Proof.
  revert s. induction n as [|n IH]; intros [|c s] H; simpl in *;
    try reflexivity; try lia.
  rewrite IH; lia.
Qed.

Lemma substring_prefix_all_hex (n : nat) (s : string) :
  all_hex s = true -> all_hex (substring 0 n s) = true.
Proof.
  revert s. induction n as [|n IH]; intros [|c s] H; simpl in *;
    try reflexivity.
  apply andb_prop in H. destruct H as [Hc Hs]. now rewrite Hc, IH.
Qed.

Lemma make_chunk_id_shape (repo_url rel name : string) :
  String.length (make_chunk_id repo_url rel name) = 12
  /\ all_hex (make_chunk_id repo_url rel name) = true.
Proof.
  unfold make_chunk_id, MD5.hexdigest. split.
  - apply substring_prefix_length. rewrite hex_length, digest_length. lia.
  - apply substring_prefix_all_hex, hex_all_hex.
Qed.

(** C5.  The identifier of every chunk [process_file] emits is the value of
    one function of the triple (repository URL, path relative to the
    repository, chunk name): twelve lower-case hexadecimal digits.  Hence two
    runs that agree on the URL and the relative path give equal identifiers
    to chunks of equal name, whatever the file or chunk content, git flag or
    time stamps; in particular two runs over an unchanged file list the same
    identifiers. *)
Theorem chunk_id_is_function_of_naming :
  (forall w file_path repo_path repo_url git c,
      In c (process_file w file_path repo_path repo_url git) ->
      chunk_id c = make_chunk_id repo_url (relpath w file_path repo_path)
                                 (function_name c)
      /\ String.length (chunk_id c) = 12
      /\ all_hex (chunk_id c) = true)
  /\ (forall w1 w2 file_path repo_path repo_url git1 git2 c1 c2,
         In c1 (process_file w1 file_path repo_path repo_url git1) ->
         In c2 (process_file w2 file_path repo_path repo_url git2) ->
         relpath w1 file_path repo_path = relpath w2 file_path repo_path ->
         function_name c1 = function_name c2 ->
         chunk_id c1 = chunk_id c2)
  /\ (forall w1 w2 file_path repo_path repo_url git1 git2,
         read_text w1 file_path = read_text w2 file_path ->
         relpath w1 file_path repo_path = relpath w2 file_path repo_path ->
         extract_git_metadata w1 repo_path file_path git1 <> None ->
         extract_git_metadata w2 repo_path file_path git2 <> None ->
         map chunk_id (process_file w1 file_path repo_path repo_url git1)
         = map chunk_id (process_file w2 file_path repo_path repo_url git2)).
Proof.
  assert (H1 : forall w file_path repo_path repo_url git c,
             In c (process_file w file_path repo_path repo_url git) ->
             chunk_id c = make_chunk_id repo_url (relpath w file_path repo_path)
                                        (function_name c)).
  { intros w file_path repo_path repo_url git c H.
    apply process_file_In in H.
    destruct H as (content & md & f & _ & _ & _ & ->). reflexivity. }
  split; [|split].
  - intros w file_path repo_path repo_url git c H.
    rewrite (H1 _ _ _ _ _ _ H). split; [reflexivity|].
    apply make_chunk_id_shape.
  - intros w1 w2 file_path repo_path repo_url git1 git2 c1 c2 Hc1 Hc2 Hrel Hn.
    rewrite (H1 _ _ _ _ _ _ Hc1), (H1 _ _ _ _ _ _ Hc2). now rewrite Hrel, Hn.
  - intros w1 w2 file_path repo_path repo_url git1 git2 Hread Hrel Hm1 Hm2.
    unfold process_file. rewrite Hread.
    destruct (read_text w2 file_path) as [content|]; [|reflexivity].
    destruct (negb (truthy (strip content))); [reflexivity|].
    destruct (extract_git_metadata w1 repo_path file_path git1) as [md1|];
      [|congruence].
    destruct (extract_git_metadata w2 repo_path file_path git2) as [md2|];
      [|congruence].
    rewrite !map_map. apply map_ext. intros f.
    unfold make_chunk. cbn [chunk_id]. now rewrite Hrel.
Qed.

(** The theorem at the first chunk of the two-function source. *)
Lemma chunk_id_is_function_of_naming_witness :
  In hello_chunk
     (process_file (one_file_world "a.py" hello_world_src)
                   "a.py" "." "repo" false)
  /\ chunk_id hello_chunk = make_chunk_id "repo" "a.py" "hello"
  /\ String.length (chunk_id hello_chunk) = 12.
Proof.
  split; [exact hello_chunk_emitted|].
  destruct (proj1 chunk_id_is_function_of_naming _ _ _ _ _ _
                  hello_chunk_emitted) as (H1 & H2 & _).
  split; [exact H1 | exact H2].
Defined.

(** ** The [repo] field (C8) *)

Lemma cloned_hello_chunk_emitted :
  In cloned_hello_chunk
     (process_file (cloned_world "a.py" hello_world_src origin_url)
                   "a.py" "/tmp/clone" "caller-url" true).
Proof. vm_compute. left. reflexivity. Defined.

(** C8 as stated fails on the code: with git extraction enabled and an
    [origin] that resolves, the chunk still carries the URL the caller
    passed, not the resolved one. *)
Lemma chunk_repo_is_not_resolved_origin :
  extract_git_metadata (cloned_world "a.py" hello_world_src origin_url)
                       "/tmp/clone" "a.py" true
  = Some (mkMetadata (Some "Ada") (Some "2024-02-02T00:00:00")
                     (Some "01234567") (Some origin_url))
  /\ ~ (forall c,
           In c (process_file (cloned_world "a.py" hello_world_src origin_url)
                              "a.py" "/tmp/clone" "caller-url" true) ->
           repo_field c = origin_url).
Proof.
  split; [reflexivity|]. intros H.
  specialize (H cloned_hello_chunk cloned_hello_chunk_emitted).
  vm_compute in H. discriminate.
Qed.

(** C8, amended.  The [repo] field of every chunk is the [repo_url] the
    caller passed, whether or not git extraction is enabled and whether or
    not [origin] resolves.  The resolved [origin] URL, or the repository root
    path in its place, is recorded only in the metadata dictionary of
    [extract_git_metadata], which [process_file] does not read for this
    field. *)
Theorem chunk_repo_is_caller_url
    (w : world) (file_path repo_path repo_url : string) (git : bool)
    (c : chunk) :
  In c (process_file w file_path repo_path repo_url git) ->
  repo_field c = repo_url
  /\ exists md,
       extract_git_metadata w repo_path file_path git = Some md
       /\ (md_repo md = Some repo_path
           \/ exists r url,
                git = true /\ open_repo w repo_path = Some r
                /\ remote_origin_url r = Some url /\ md_repo md = Some url).
Proof.
  intros H. apply process_file_In in H.
  destruct H as (content & md & f & _ & Hmd & _ & ->).
  split; [reflexivity|]. exists md. split; [assumption|].
  unfold extract_git_metadata, mtime_only in Hmd.
  destruct git;
    [destruct (open_repo w repo_path) as [r|] eqn:Er;
     [destruct (remote_origin_url r) as [url|] eqn:Eu;
      destruct (iter_commits r _) as [[|k ks]|]|]|];
    destruct (getmtime_iso w file_path); inversion Hmd; subst; cbn [md_repo];
    first [now left | right; exists r, url; auto].
Qed.

(** The theorem at a chunk of a cloned repository. *)
Lemma chunk_repo_is_caller_url_witness :
  In cloned_hello_chunk
     (process_file (cloned_world "a.py" hello_world_src origin_url)
                   "a.py" "/tmp/clone" "caller-url" true)
  /\ repo_field cloned_hello_chunk = "caller-url".
Proof.
  split; [exact cloned_hello_chunk_emitted|].
  exact (proj1 (chunk_repo_is_caller_url _ _ _ _ _ _
                  cloned_hello_chunk_emitted)).
Defined.

(** ** File discovery (C9) *)

Import Discovery.

Lemma tree_nested_ind (P : tree -> Prop) :
  (forall files dirs, Forall (fun d => P (snd d)) dirs -> P (Dir files dirs)) ->
  forall t, P t.
Proof.
  intros H. fix IH 1. intros [files dirs]. apply H.
  induction dirs as [|[d sub] dirs IHd]; constructor; [apply IH | apply IHd].
Qed.

Lemma mem_In (x : string) (xs : list string) : mem x xs = true <-> In x xs.
Proof.
  unfold mem. rewrite existsb_exists. split.
  - intros (y & Hy & E). apply String.eqb_eq in E. now subst.
  - intros H. exists x. split; [assumption | apply String.eqb_refl].
Qed.

Lemma walk_unfold (exclude_dirs : list string) (root : string)
    (files : list string) (dirs : list (string * tree)) :
  walk exclude_dirs root (Dir files dirs)
  = (root, files)
    :: flat_map (fun d => if negb (mem (fst d) exclude_dirs)
                          then walk exclude_dirs (path_join root (fst d)) (snd d)
                          else [])
                dirs.
Proof.
  simpl. f_equal.
  induction dirs as [|[d sub] dirs IH]; [reflexivity|].
  cbn [flat_map fst snd]. rewrite <- IH.
  destruct (negb (mem d exclude_dirs)); reflexivity.
Qed.

(** Every directory the walk visits is reached through names that are not
    excluded, and its files are those of the tree. *)
Lemma walk_sound (exclude_dirs : list string) (t : tree) :
  forall root r fs f,
    In (r, fs) (walk exclude_dirs root t) -> In f fs ->
    exists ds, file_at t ds f /\ r = dir_path root ds
               /\ Forall (fun d => ~ In d exclude_dirs) ds.
Proof.
  induction t as [files dirs IH] using tree_nested_ind.
  intros root r fs f Hin Hf. rewrite walk_unfold in Hin.
  destruct Hin as [E|Hin].
  - inversion E; subst. exists []. repeat split; auto. now constructor.
  - apply in_flat_map in Hin. destruct Hin as ([d sub] & Hd & Hin).
    cbn [fst snd] in Hin.
    destruct (mem d exclude_dirs) eqn:Em; [contradiction|]. cbn [negb] in Hin.
    rewrite Forall_forall in IH.
    destruct (IH _ Hd _ _ _ _ Hin Hf) as (ds & H1 & H2 & H3).
    exists (d :: ds). repeat split.
    + econstructor; eassumption.
    + exact H2.
    + constructor; [|assumption].
      intros Hx. apply mem_In in Hx. congruence.
Qed.

(** Every file below names that are not excluded is met by the walk. *)
Lemma walk_complete (exclude_dirs : list string) (t : tree)
    (ds : list string) (f : string) :
  file_at t ds f -> Forall (fun d => ~ In d exclude_dirs) ds ->
  forall root,
    exists fs, In (dir_path root ds, fs) (walk exclude_dirs root t) /\ In f fs.
Proof.
  induction 1 as [files dirs f Hf | files dirs d sub ds f Hd _ IH];
    intros Hex root; rewrite walk_unfold.
  - exists files. split; [now left | assumption].
  - inversion Hex as [|? ? Hd' Hds]; subst.
    destruct (IH Hds (path_join root d)) as (fs & H1 & H2).
    exists fs. split; [|assumption]. right.
    apply in_flat_map. exists (d, sub). split; [assumption|].
    cbn [fst snd].
    destruct (mem d exclude_dirs) eqn:Em.
    + apply mem_In in Em. contradiction.
    + exact H1.
Qed.



Lemma discovery_scenario :
  discover_code_files sample_tree "/repo" ["js"] ["node_modules"]
  = ["/repo/src/app.js"; "/repo/src/MAIN.JS"].
Proof. reflexivity. Qed.

(** ** The batch writer (C1) *)

Import Writer.

Local Open Scope Z_scope.

Lemma succeeded_app (l1 l2 : list event) :
  succeeded (l1 ++ l2) = succeeded l1 + succeeded l2.
Proof. unfold succeeded. rewrite filter_app, length_app. lia. Qed.

Lemma failed_app (l1 l2 : list event) :
  failed (l1 ++ l2) = failed l1 + failed l2.
Proof. unfold failed. rewrite filter_app, length_app. lia. Qed.

Lemma report_last (log : list event) (e : event) : report (log ++ [e]) = e.
Proof. unfold report. apply last_last. Qed.

Section WriterFacts.

Variable Server : Type.
Variable execute_query : Server -> string -> Server * bool.
Variable reconnect : Server -> Server.
Variable kb_name : string.

Let run_attempts := attempts Server execute_query reconnect kb_name.
Let run_step := batch_step Server execute_query reconnect kb_name.

(** One batch: either it goes in on one of the three attempts and is
    counted once as inserted, or all three fail and it is counted once as
    failed. *)
Lemma attempts_accounting (batch_data : list record)
    (batch_num total_batches : Z) (srv : Server) :
  let '(_, log, ok) :=
    run_attempts (Z.to_nat max_retries) 0 batch_data batch_num total_batches
                 srv in
  if ok then succeeded log = 1 /\ failed log = 0
  else succeeded log = 0 /\ failed log = 1.
Proof.
  unfold run_attempts. change (Z.to_nat max_retries) with 3%nat.
  cbn [attempts].
  destruct (insert_query kb_name batch_data) as [q|].
  - destruct (execute_query srv q) as [s1 [|]]; [split; reflexivity|].
    cbn. destruct (execute_query (reconnect s1) q) as [s2 [|]];
      [split; reflexivity|].
    cbn. destruct (execute_query (reconnect s2) q) as [s3 [|]];
      split; reflexivity.
  - cbn. split; reflexivity.
Qed.

(** The loop over the batches keeps the books. *)
Lemma batch_loop_accounting (data : list record) (batch_size total : Z)
    (starts : list Z) :
  forall srv log n,
    let '(_, log', n') :=
      fold_left (run_step data batch_size total) starts (srv, log, n) in
    succeeded log' = succeeded log + (n' - n)
    /\ failed log' = failed log + (Z.of_nat (length starts) - (n' - n))
    /\ 0 <= n' - n <= Z.of_nat (length starts).
Proof.
  induction starts as [|i starts IH]; intros srv log n.
  - simpl. lia.
  - cbn [fold_left]. unfold run_step at 2. unfold batch_step.
    pose proof (attempts_accounting
                  (slice data i (i + batch_size)) (i / batch_size + 1) total srv)
      as Ha.
    unfold run_attempts in Ha.
    destruct (attempts _ _ _ _ _ _ _ _ _ _) as [[srv1 log1] ok].
    specialize (IH srv1 (log ++ log1) (if ok then n + 1 else n)).
    destruct (fold_left _ starts _) as [[srv' log'] n'].
    rewrite succeeded_app, failed_app in IH.
    cbn [length]. destruct ok; lia.
Qed.

Lemma range_step_length (stop step : Z) :
  0 < step -> 0 <= stop ->
  Z.of_nat (length (range_step stop step)) = (stop + step - 1) / step.
Proof.
  intros Hs Hn. unfold range_step.
  destruct (Z.ltb_spec 0 step); [|lia].
  rewrite length_map, length_seq. apply Z2Nat.id.
  apply Z.div_pos; lia.
Qed.


End WriterFacts.

(** The scenario of the specification: 60 chunks in batches of 25, the
    second batch failing on every attempt. *)
Lemma partial_success_scenario :
  insert_data nat flaky_query (fun n => n) "codebase_kb" 500 0%nat
              sixty_chunks (Some 25)
  = (5%nat,
     [UsingBatchSize 25; TotalRecords 60;
      InsertedBatch 1 3 25;
      BatchRetrying 2 1; Reconnecting; BatchRetrying 2 2; Reconnecting;
      BatchFailed 2 3;
      InsertedBatch 3 3 10;
      PartiallySuccessful 50 60],
     true).
Proof. vm_compute. reflexivity. Qed.

Lemma insert_data_empty (Server : Type)
    (execute_query : Server -> string -> Server * bool)
    (reconnect : Server -> Server) (kb_name : string)
    (config_batch_size : Z) (srv : Server) (batch_size : option Z) :
  insert_data Server execute_query reconnect kb_name config_batch_size srv
              [] batch_size
  = (srv, [NoData], true).
Proof. reflexivity. Qed.




(* ================================================================== *)
(** * Part III: further properties of the code *)
(* ================================================================== *)

Local Open Scope nat_scope.

Import Vocab.

(** ** The extractor: what is found, and where it ends *)

Lemma In_firstn {A} (n : nat) (l : list A) (x : A) :
  In x (firstn n l) -> In x l.
Proof.
  intros H. rewrite <- (firstn_skipn n l). apply in_or_app. now left.
Qed.

Lemma In_skipn {A} (n : nat) (l : list A) (x : A) :
  In x (skipn n l) -> In x l.
Proof.
  intros H. rewrite <- (firstn_skipn n l). apply in_or_app. now right.
Qed.

Lemma existsb_false_In {A} (p : A -> bool) (l : list A) (x : A) :
  existsb p l = false -> In x l -> p x = false.
Proof.
  intros H Hin. destruct (p x) eqn:E; [|reflexivity].
  assert (existsb p l = true) by (apply existsb_exists; eauto). congruence.
Qed.

Lemma python_scan_blank (lines : list string) :
  forall todo i, existsb has_ink todo = false -> python_scan lines todo i = [].
Proof.
  induction todo as [|l todo IH]; intros i H; [reflexivity|].
  simpl in H. apply orb_false_elim in H. destruct H as [Hl Ht].
  cbn [python_scan]. destruct (python_def l) as [gs|] eqn:E.
  - rewrite (python_def_ink _ _ E) in Hl. discriminate.
  - now apply IH.
Qed.

Lemma js_scan_blank (lines : list string) :
  forall todo i, existsb has_ink todo = false -> js_scan lines todo i = [].
Proof.
  induction todo as [|l todo IH]; intros i H; [reflexivity|].
  simpl in H. apply orb_false_elim in H. destruct H as [Hl Ht].
  cbn [js_scan]. destruct (first_match js_patterns l) as [gs|] eqn:E.
  - rewrite (js_patterns_ink _ _ E) in Hl. discriminate.
  - now apply IH.
Qed.

Lemma flat_map_nil {A B} (f : A -> list B) (l : list A) :
  (forall x, In x l -> f x = []) -> flat_map f l = [].
Proof.
  induction l as [|a l IH]; intros H; [reflexivity|]. simpl.
  rewrite (H a (or_introl eq_refl)), IH; [reflexivity|].
  intros x Hx. apply H. now right.
Qed.

Lemma windows_blank (lines : list string) :
  existsb has_ink lines = false -> windows lines = [].
Proof.
  intros H. unfold windows. apply flat_map_nil. intros i _.
  unfold window. rewrite strip_truthy, has_ink_join.
  assert (Hs : existsb has_ink (Py.slice lines i (i + chunk_size)) = false).
  { destruct (existsb has_ink (Py.slice lines i (i + chunk_size))) eqn:E;
      [|reflexivity].
    apply existsb_exists in E. destruct E as (l & Hl & Hink).
    unfold Py.slice in Hl. apply In_firstn, In_skipn in Hl.
    rewrite (existsb_false_In _ _ _ H Hl) in Hink. discriminate. }
  now rewrite Hs.
Qed.

(** X1.  Extraction returns no record exactly when the content is empty or
    holds only white space, whatever the language. *)
Theorem extract_empty_iff_blank (content language : string) :
  extract_functions_fallback content language = []
  <-> truthy (strip content) = false.
Proof.
  rewrite strip_truthy. split.
  - intros H. destruct (has_ink content) eqn:E; [|reflexivity].
    destruct (extract_nonempty content language E H).
  - intros H. rewrite <- has_ink_split in H.
    unfold extract_functions_fallback, pattern_functions.
    rewrite (python_scan_blank _ _ 0 H), (js_scan_blank _ _ 0 H).
    destruct (String.eqb language "python");
      [|destruct (mem language ["javascript"; "typescript"])];
      now apply windows_blank.
Qed.

Lemma filter_seq_shift (p : nat -> bool) (len start : nat) :
  filter p (seq (S start) len)
  = map S (filter (fun k => p (S k)) (seq start len)).
Proof.
  rewrite <- seq_shift. induction (seq start len) as [|a l IH];
    [reflexivity|].
  simpl. destruct (p (S a)); simpl; now rewrite IH.
Qed.

(** The records of a scan, by their 0-indexed opening lines. *)
Lemma python_scan_hits (lines : list string) :
  forall todo i,
    map (fun f => start_line f - 1) (python_scan lines todo i)
    = map (fun k => k + i)
          (filter (fun k => opens_record "python" (nth k todo EmptyString))
                  (seq 0 (length todo))).
Proof.
  induction todo as [|l todo IH]; intros i; [reflexivity|].
  cbn [python_scan length]. rewrite <- cons_seq. cbn [filter].
  rewrite filter_seq_shift. cbn [nth].
  assert (Hrec : map (fun f => start_line f - 1) (python_scan lines todo (S i))
                 = map (fun k => k + i)
                       (map S (filter (fun k => opens_record "python"
                                                  (nth k todo EmptyString))
                                      (seq 0 (length todo))))).
  { rewrite IH, map_map. apply map_ext. intros k. lia. }
  unfold opens_record at 1. cbn [String.eqb Ascii.eqb Bool.eqb].
  destruct (python_def l) as [gs|]; cbn [map]; rewrite Hrec;
    [|reflexivity].
  f_equal. unfold python_func. simpl. lia.
Qed.

Lemma js_scan_hits (lines : list string) (language : string) :
  mem language ["javascript"; "typescript"] = true ->
  forall todo i,
    map (fun f => start_line f - 1) (js_scan lines todo i)
    = map (fun k => k + i)
          (filter (fun k => opens_record language (nth k todo EmptyString))
                  (seq 0 (length todo))).
Proof.
  intros Hl.
  assert (Hpy : String.eqb language "python" = false).
  { simpl in Hl. rewrite orb_false_r in Hl. apply orb_prop in Hl.
    destruct Hl as [Hl|Hl]; apply String.eqb_eq in Hl; subst; reflexivity. }
  induction todo as [|l todo IH]; intros i; [reflexivity|].
  cbn [js_scan length]. rewrite <- cons_seq. cbn [filter].
  rewrite filter_seq_shift. cbn [nth].
  assert (Hrec : map (fun f => start_line f - 1) (js_scan lines todo (S i))
                 = map (fun k => k + i)
                       (map S (filter (fun k => opens_record language
                                                  (nth k todo EmptyString))
                                      (seq 0 (length todo))))).
  { rewrite IH, map_map. apply map_ext. intros k. lia. }
  unfold opens_record at 1. rewrite Hpy, Hl.
  destruct (first_match js_patterns l) as [gs|]; cbn [map]; rewrite Hrec;
    [|reflexivity].
  f_equal. unfold js_func. simpl. lia.
Qed.

Lemma filter_none {A} (p : A -> bool) (l : list A) :
  (forall x, p x = false) -> filter p l = [].
Proof.
  intros H. induction l as [|a l IH]; [reflexivity|]. simpl.
  now rewrite H.
Qed.

Lemma pattern_functions_hits (lines : list string) (language : string) :
  map (fun f => start_line f - 1) (pattern_functions lines language)
  = filter (fun k => opens_record language (nth k lines EmptyString))
           (seq 0 (length lines)).
Proof.
  unfold pattern_functions.
  destruct (String.eqb language "python") eqn:Ep.
  - apply String.eqb_eq in Ep. subst language.
    rewrite python_scan_hits. rewrite <- (map_id (filter _ _)) at 2.
    apply map_ext. intros k. lia.
  - destruct (mem language ["javascript"; "typescript"]) eqn:Ej.
    + rewrite (js_scan_hits lines language Ej).
      rewrite <- (map_id (filter _ _)) at 2. apply map_ext. intros k. lia.
    + rewrite filter_none; [reflexivity|].
      intros k. unfold opens_record. now rewrite Ep, Ej.
Qed.

(** X2.  When some line of the file opens a record (matches the [def] or
    [class] pattern for Python, one of the four brace patterns for
    JavaScript and TypeScript), extraction yields exactly one record per such
    line, in the order of the lines: the opening lines of the records are
    the matching lines.  Nested definitions get records of their own. *)
Theorem records_follow_matching_lines (content language : string) :
  filter (fun k => opens_record language
                     (nth k (split_lines content) EmptyString))
         (seq 0 (length (split_lines content))) <> [] ->
  map (fun f => start_line f - 1)
      (extract_functions_fallback content language)
  = filter (fun k => opens_record language
                       (nth k (split_lines content) EmptyString))
           (seq 0 (length (split_lines content))).
Proof.
  intros H. rewrite <- pattern_functions_hits in *.
  unfold extract_functions_fallback.
  destruct (pattern_functions (split_lines content) language);
    [contradiction | reflexivity].
Qed.

(** The theorem at the nested sample: the class on line 1 and its method on
    line 2. *)
Lemma records_follow_matching_lines_witness :
  map (fun f => start_line f - 1)
      (extract_functions_fallback nested_dedent_src "python")
  = [0; 1].
Proof.
  rewrite (records_follow_matching_lines nested_dedent_src "python");
    [reflexivity | vm_compute; discriminate].
Defined.

Lemma python_scan_complete (lines : list string) :
  forall todo i i' line after gs,
    skipn i lines = todo -> i <= i' -> skipn i' lines = line :: after ->
    python_def line = Some gs ->
    In (python_func lines i' after gs) (python_scan lines todo i).
Proof.
  induction todo as [|l todo IH]; intros i i' line after gs Hs Hle Hs' Hm.
  - rewrite (skipn_nil_le _ _ _ Hs Hle) in Hs'. discriminate.
  - cbn [python_scan]. destruct (skipn_cons_inv _ _ _ _ Hs) as (Hn & _ & _).
    destruct (Nat.eq_dec i i') as [<-|Hne].
    + rewrite Hs in Hs'. inversion Hs'; subst. rewrite Hm. now left.
    + assert (In (python_func lines i' after gs)
                 (python_scan lines todo (S i)))
        by (eapply IH; eauto; lia).
      destruct (python_def l); [now right | assumption].
Qed.

Lemma firstn_prefix_before (p : string -> bool) (ls : list string) :
  firstn (length (prefix_before p ls)) ls = prefix_before p ls.
Proof.
  induction ls as [|l ls IH]; [reflexivity|]. simpl.
  destruct (p l); [reflexivity|]. simpl. now rewrite IH.
Qed.

Lemma python_block_end_extent (k : nat) (after : list string) :
  forall j dflt,
    1 <= j -> dflt = j - 1 + length after ->
    python_block_end k after j dflt
    = j - 1 + length (prefix_before (closes_block k) after).
Proof.
  induction after as [|l after IH]; intros j dflt Hj Hd.
  - simpl in *. lia.
  - rewrite python_block_end_exact. cbn [prefix_before].
    fold (closes_block k l). destruct (closes_block k l).
    + simpl. lia.
    + rewrite (IH (S j) dflt); simpl in *; lia.
Qed.

Lemma python_language_extract (content : string) :
  python_scan (split_lines content) (split_lines content) 0 <> [] ->
  extract_functions_fallback content "python"
  = python_scan (split_lines content) (split_lines content) 0.
Proof.
  intros Hne. unfold extract_functions_fallback, pattern_functions.
  cbn [String.eqb Ascii.eqb Bool.eqb].
  destruct (python_scan (split_lines content) (split_lines content) 0);
    [contradiction | reflexivity].
Qed.

(** X3.  The extent of a Python block, as the loop computes it: the record
    opened by a matching line holds that line and the lines after it up to,
    and without, the first one that has ink and is indented by exactly as
    many blanks as the opening line has leading white space; the block runs
    to the last line when there is none.  Blank lines, deeper lines and
    lines indented less do not end it. *)
Theorem python_block_extent (content : string) (i : nat) (line : string)
    (gs : groups) :
  nth_error (split_lines content) i = Some line ->
  python_def line = Some gs ->
  (exists f, In f (extract_functions_fallback content "python")
             /\ start_line f = i + 1)
  /\ (forall f,
         In f (extract_functions_fallback content "python") ->
         start_line f = i + 1 ->
         Extract.content f
         = join_lines
             (line :: prefix_before
                        (closes_block (String.length (group gs 1)))
                        (skipn (S i) (split_lines content)))
         /\ end_line f
            = i + 1 + length (prefix_before
                                (closes_block (String.length (group gs 1)))
                                (skipn (S i) (split_lines content)))).
Proof.
  intros Hi Hm. set (lines := split_lines content) in *.
  pose proof (nth_error_skipn_cons _ _ _ Hi) as Hs.
  set (after := skipn (S i) lines) in *.
  destruct (skipn_cons_inv _ _ _ _ Hs) as (_ & _ & Hlen).
  set (k := String.length (group gs 1)) in *.
  assert (Hend : python_block_end k after (i + 1) (length lines - 1)
                 = i + length (prefix_before (closes_block k) after)).
  { rewrite python_block_end_extent; lia. }
  pose proof (python_scan_complete lines lines 0 i line after gs eq_refl
                ltac:(lia) Hs Hm) as Hin.
  assert (Hext : extract_functions_fallback content "python"
                 = python_scan lines lines 0).
  { apply python_language_extract. fold lines. intros E. rewrite E in Hin.
    contradiction. }
  rewrite Hext. split.
  - exists (python_func lines i after gs). split; [assumption | reflexivity].
  - intros f Hfin Hstart.
    apply python_scan_In with (i := 0) in Hfin; [|reflexivity].
    destruct Hfin as (i' & line' & after' & gs' & _ & Hs' & Hm' & ->).
    assert (i' = i) by (unfold python_func in Hstart; simpl in Hstart; lia).
    subst i'. rewrite Hs in Hs'. inversion Hs'; subst line' after'.
    rewrite Hm in Hm'. inversion Hm'; subst gs'.
    unfold python_func. cbv zeta. fold k. rewrite Hend.
    cbn [Extract.content end_line].
    rewrite (slice_from _ _ _ _ _ Hs) by lia.
    replace (i + length (prefix_before (closes_block k) after) - i)
      with (length (prefix_before (closes_block k) after)) by lia.
    rewrite firstn_prefix_before. split; [reflexivity | lia].
Qed.

(** The theorem at the first function of the two-function source. *)
Lemma python_block_extent_witness :
  nth_error (split_lines hello_world_src) 0 = Some "def hello():"
  /\ python_def "def hello():" = Some [EmptyString; "def"; "hello"]
  /\ exists f, In f (extract_functions_fallback hello_world_src "python")
               /\ start_line f = 1.
Proof.
  split; [reflexivity|]. split; [reflexivity|].
  exact (proj1 (python_block_extent hello_world_src 0 "def hello():"
                  [EmptyString; "def"; "hello"] eq_refl eq_refl)).
Defined.

Lemma js_block_end_first_zero (after : list string) :
  forall (b : Z) (j dflt t : nat),
    t < length after ->
    (b + balance (firstn (S t) after))%Z = 0%Z ->
    (forall m, 1 <= m <= t -> (b + balance (firstn m after))%Z <> 0%Z) ->
    js_block_end b after j dflt = j + t.
Proof.
  induction after as [|l after IH]; intros b j dflt t Ht Hz Hnz;
    [simpl in Ht; lia|].
  cbn [js_block_end]. destruct t as [|t].
  - simpl in Hz.
    destruct (Z.eqb_spec (b + (count "{" l - count "}" l)) 0); lia.
  - pose proof (Hnz 1 ltac:(lia)) as H1. simpl in H1.
    destruct (Z.eqb_spec (b + (count "{" l - count "}" l)) 0) as [E|_];
      [lia|].
    rewrite (IH _ (S j) dflt t).
    + lia.
    + simpl in Ht. lia.
    + change (firstn (S (S t)) (l :: after))
        with (l :: firstn (S t) after) in Hz.
      simpl in Hz |- *. lia.
    + intros m Hm. specialize (Hnz (S m) ltac:(lia)).
      simpl in Hnz. lia.
Qed.

(** X4.  Where a brace block closes: for a line [i] of a JavaScript or
    TypeScript file that matches a pattern, if [j] is the first later line
    at which the brace balance counted from line [i] is zero, the record
    spans lines [i .. j].  The balance is only tested at later lines, so a
    record never closes on its own opening line. *)
Theorem js_block_closes_at_first_zero
    (content language : string) (i j : nat) (line : string) :
  mem language ["javascript"; "typescript"] = true ->
  nth_error (split_lines content) i = Some line ->
  first_match js_patterns line <> None ->
  i < j < length (split_lines content) ->
  balance (Py.slice (split_lines content) i (j + 1)) = 0%Z ->
  (forall m, i < m < j ->
             balance (Py.slice (split_lines content) i (m + 1)) <> 0%Z) ->
  exists f, In f (extract_functions_fallback content language)
            /\ start_line f = i + 1 /\ end_line f = j + 1
            /\ Extract.content f
               = join_lines (Py.slice (split_lines content) i (j + 1)).
Proof.
  intros Hlang Hi Hm Hj Hz Hnz.
  set (lines := split_lines content) in *.
  destruct (first_match js_patterns line) as [gs|] eqn:Em; [|congruence].
  pose proof (nth_error_skipn_cons _ _ _ Hi) as Hs.
  set (after := skipn (S i) lines) in *.
  destruct (skipn_cons_inv _ _ _ _ Hs) as (_ & _ & Hlen).
  assert (Hend : js_block_end (count "{" line - count "}" line) after
                              (i + 1) i = j).
  { rewrite (js_block_end_first_zero after _ (i + 1) i (j - i - 1)).
    - lia.
    - lia.
    - rewrite (slice_from _ _ _ _ _ Hs) in Hz by lia.
      replace (S (j - i - 1)) with (j - i) by lia. simpl in Hz. lia.
    - intros m Hm'. specialize (Hnz (i + m) ltac:(lia)).
      rewrite (slice_from _ _ _ _ _ Hs) in Hnz by lia.
      replace (i + m - i) with m in Hnz by lia. simpl in Hnz. lia. }
  pose proof (js_scan_complete lines lines 0 i line after gs eq_refl
                ltac:(lia) Hs Em) as Hin.
  assert (Hext : extract_functions_fallback content language
                 = js_scan lines lines 0).
  { apply js_language_extract; [assumption|].
    fold lines. intros E. rewrite E in Hin. contradiction. }
  rewrite Hext. exists (js_func lines i line after gs).
  split; [assumption|]. unfold js_func. cbv zeta. rewrite Hend.
  repeat split.
Qed.

(** The theorem at a function written on one line: its record takes in the
    line that follows. *)
Lemma js_block_closes_at_first_zero_witness :
  exists f,
    In f (extract_functions_fallback
            (join_lines ["function f() { return 1; }"; "var x = 1;"; "g();"])
            "javascript")
    /\ start_line f = 1 /\ end_line f = 2
    /\ Extract.content f
       = join_lines ["function f() { return 1; }"; "var x = 1;"].
Proof.
  refine (js_block_closes_at_first_zero
            (join_lines ["function f() { return 1; }"; "var x = 1;"; "g();"])
            "javascript" 0 1 "function f() { return 1; }" _ _ _ _ _ _).
  - reflexivity.
  - reflexivity.
  - vm_compute. discriminate.
  - vm_compute. lia.
  - reflexivity.
  - intros m Hm. lia.
Defined.

(** ** Record names *)

Lemma ident_start_is_ident_char (c : ascii) :
  ident_start c = true -> ident_char c = true.
Proof. unfold ident_char. now intros ->. Qed.

Lemma ident_star_chars (s : string) :
  all_ident_chars (fst (ident_star s)) = true.
Proof.
  induction s as [|c s IH]; [reflexivity|]. simpl.
  destruct (ident_char c) eqn:E; [|reflexivity].
  destruct (ident_star s) as [w r]. simpl in *. now rewrite E, IH.
Qed.

Lemma identifier_chars (s g r : string) :
  identifier s = Some (g, r) ->
  g <> EmptyString /\ all_ident_chars g = true.
Proof.
  destruct s as [|c s]; simpl; [discriminate|].
  destruct (ident_start c) eqn:E; [|discriminate].
  pose proof (ident_star_chars s) as H.
  destruct (ident_star s) as [w r']. simpl in H.
  intros E'. inversion E'; subst. split; [discriminate|].
  simpl. now rewrite (ident_start_is_ident_char _ E), H.
Qed.

Lemma keyword_head_name (kws : list string) (line : string) gs r :
  keyword_head kws line = Some (gs, r) ->
  length gs = 3
  /\ group gs 3 <> EmptyString /\ all_ident_chars (group gs 3) = true.
Proof.
  unfold keyword_head. destruct (spaces_star line) as [g1 r1].
  destruct (alternatives kws r1) as [[g2 r2]|]; [|discriminate].
  destruct (spaces_plus r2) as [r3|]; [|discriminate].
  destruct (identifier r3) as [[g3 r4]|] eqn:E; [|discriminate].
  intros H. inversion H; subst.
  split; [reflexivity|]. exact (identifier_chars _ _ _ E).
Qed.

Lemma python_def_name (line : string) gs :
  python_def line = Some gs ->
  group gs 3 <> EmptyString /\ all_ident_chars (group gs 3) = true.
Proof.
  unfold python_def.
  destruct (keyword_head _ line) as [[gs' r]|] eqn:E; [|discriminate].
  destruct r as [|c r]; [discriminate|].
  destruct (_ && _); [|discriminate].
  intros H. inversion H; subst. exact (proj2 (keyword_head_name _ _ _ _ E)).
Qed.

Lemma keyword_pattern_name (kws : list string) (line : string) gs
    (test : ascii -> string -> bool) :
  match keyword_head kws line with
  | Some (gs', String c r) => if test c r then Some gs' else None
  | _ => None
  end = Some gs ->
  js_name gs <> EmptyString /\ all_ident_chars (js_name gs) = true.
Proof.
  destruct (keyword_head kws line) as [[gs' r]|] eqn:E; [|discriminate].
  destruct r as [|c r]; [discriminate|].
  destruct (test c r); [|discriminate].
  intros H. inversion H; subst.
  destruct (keyword_head_name _ _ _ _ E) as (Hl & Hn).
  unfold js_name. now rewrite Hl.
Qed.

Lemma js_method_name (line : string) gs :
  js_method line = Some gs ->
  js_name gs <> EmptyString /\ all_ident_chars (js_name gs) = true.
Proof.
  unfold js_method. destruct (spaces_star line) as [g1 r1].
  destruct (identifier r1) as [[g2 r2]|] eqn:E; [|discriminate].
  destruct (snd (spaces_star r2)) as [|c r]; [discriminate|].
  destruct (_ && _); [|discriminate].
  intros H. inversion H; subst. exact (identifier_chars _ _ _ E).
Qed.

Lemma js_patterns_name (line : string) gs :
  first_match js_patterns line = Some gs ->
  js_name gs <> EmptyString /\ all_ident_chars (js_name gs) = true.
Proof.
  unfold js_patterns. cbn [first_match].
  destruct (js_function line) as [g|] eqn:E1.
  { intros H. inversion H; subst.
    exact (keyword_pattern_name ["function"] line gs
             (fun c r => Ascii.eqb c "(" && tail_paren_brace r) E1). }
  destruct (js_arrow line) as [g|] eqn:E2.
  { intros H. inversion H; subst.
    exact (keyword_pattern_name ["const"; "let"; "var"] line gs
             (fun c r => Ascii.eqb c "=" && tail_arrow_brace r) E2). }
  destruct (js_class line) as [g|] eqn:E3.
  { intros H. inversion H; subst.
    exact (keyword_pattern_name ["class"] line gs
             (fun c r => Ascii.eqb c "{") E3). }
  destruct (js_method line) as [g|] eqn:E4; [|discriminate].
  intros H. inversion H; subst. exact (js_method_name _ _ E4).
Qed.

Lemma string_of_uint_chars (d : Decimal.uint) :
  all_ident_chars (NilEmpty.string_of_uint d) = true.
Proof. induction d; simpl; auto. Qed.

Lemma chunk_name_chars (n : nat) :
  all_ident_chars ("chunk_" ++ str_of_nat n) = true.
Proof. unfold str_of_nat. simpl. apply string_of_uint_chars. Qed.

(** X5.  The name of every record of extraction is a non-empty string of
    letters, digits and underscores: an identifier captured by a pattern, or
    [chunk_<n>].  A name never holds a blank, a quote or a separator. *)
Theorem record_names_are_identifiers (content language : string) (f : func) :
  In f (extract_functions_fallback content language) ->
  name f <> EmptyString /\ all_ident_chars (name f) = true.
Proof.
  intros H. apply extract_cases in H.
  set (lines := split_lines content) in *.
  destruct H as [H|[H|H]].
  - apply python_scan_In with (i := 0) in H; [|reflexivity].
    destruct H as (i & line & after & gs & _ & _ & Hm & ->).
    exact (python_def_name _ _ Hm).
  - apply js_scan_In with (i := 0) in H; [|reflexivity].
    destruct H as (i & line & after & gs & _ & _ & Hm & ->).
    exact (js_patterns_name _ _ Hm).
  - apply windows_In in H. destruct H as (n & _ & _ & ->).
    split; [discriminate | apply chunk_name_chars].
Qed.

(** The theorem at the method [f] of the nested sample. *)
Lemma record_names_are_identifiers_witness :
  In (mkFunc "A" "class"
        (join_lines ["class A(object):"; "    def f(self):";
                     "        return 1"]) 1 3 "1-3")
     (extract_functions_fallback nested_dedent_src "python")
  /\ all_ident_chars "A" = true.
Proof.
  assert (H : In (mkFunc "A" "class"
                   (join_lines ["class A(object):"; "    def f(self):";
                                "        return 1"]) 1 3 "1-3")
                 (extract_functions_fallback nested_dedent_src "python"))
    by (vm_compute; left; reflexivity).
  split; [exact H|].
  exact (proj2 (record_names_are_identifiers nested_dedent_src "python" _ H)).
Defined.

(** ** Windows *)

(** X6.  When extraction falls back to windows, every record spans at most
    50 lines and starts on a line [50 n + 1], and two different records
    never share a line. *)
Theorem windows_do_not_overlap (content language : string) (f g : func) :
  pattern_functions (split_lines content) language = [] ->
  In f (extract_functions_fallback content language) ->
  In g (extract_functions_fallback content language) ->
  end_line f - start_line f < 50
  /\ (start_line f - 1) mod 50 = 0
  /\ (f = g \/ end_line f < start_line g \/ end_line g < start_line f).
Proof.
  intros Hp Hf Hg. rewrite (extract_is_windows _ _ Hp) in Hf, Hg.
  apply windows_In in Hf, Hg.
  destruct Hf as (n & Hn & _ & ->). destruct Hg as (m & Hm & _ & ->).
  unfold chunk_size in *. cbn [start_line end_line].
  split; [lia|]. split.
  - replace (n * 50 + 1 - 1) with (n * 50) by lia. apply Nat.Div0.mod_mul.
  - destruct (Nat.lt_trichotomy n m) as [L|[E|L]].
    + right. left. lia.
    + left. now subst.
    + right. right. lia.
Qed.

(** The theorem at the first two windows of a text file of 120 lines. *)
Lemma windows_do_not_overlap_witness :
  pattern_functions (split_lines text_120_src) "text" = []
  /\ end_line (window_func (split_lines text_120_src) 0)
     < start_line (window_func (split_lines text_120_src) 1).
Proof.
  split; [reflexivity|].
  destruct (windows_do_not_overlap text_120_src "text"
              (window_func (split_lines text_120_src) 0)
              (window_func (split_lines text_120_src) 1)
              eq_refl
              ltac:(vm_compute; left; reflexivity)
              ltac:(vm_compute; right; left; reflexivity))
    as (_ & _ & [E | [H | H]]).
  - vm_compute in E. discriminate E.
  - exact H.
  - vm_compute in H. lia.
Defined.

(** ** [process_file]: which files give chunks, and what they carry *)








(** X10.  Without git extraction every chunk has an empty author and an
    empty line range, and its time stamp is the modification time of the
    file; with git extraction the line range is the [start-end] of the
    record, never empty. *)
Theorem git_flag_gates_author_and_line_range
    (w : world) (file_path repo_path repo_url : string) (git : bool)
    (c : chunk) :
  In c (process_file w file_path repo_path repo_url git) ->
  (git = false ->
   author c = EmptyString /\ Enrich.line_range c = EmptyString
   /\ getmtime_iso w file_path = Some (last_modified c))
  /\ (git = true ->
      exists a b, 1 <= a <= b
                  /\ Enrich.line_range c
                     = (str_of_nat a ++ "-" ++ str_of_nat b)%string).
Proof.
  intros H. apply process_file_In in H.
  destruct H as (content & md & f & _ & Hmd & Hf & ->).
  unfold make_chunk. cbn [author Enrich.line_range last_modified]. split.
  - intros ->. unfold extract_git_metadata, mtime_only in Hmd.
    destruct (getmtime_iso w file_path); inversion Hmd; subst. auto.
  - intros ->.
    destruct (extract_func_facts _ _ _ Hf) as (H1 & H2 & _).
    exists (start_line f), (end_line f). split; [lia|].
    apply extract_cases in Hf. destruct Hf as [Hf|[Hf|Hf]].
    + apply python_scan_In with (i := 0) in Hf; [|reflexivity].
      destruct Hf as (i & line & after & gs & _ & _ & _ & ->). reflexivity.
    + apply js_scan_In with (i := 0) in Hf; [|reflexivity].
      destruct Hf as (i & line & after & gs & _ & _ & _ & ->). reflexivity.
    + apply windows_In in Hf. destruct Hf as (n & _ & _ & ->). reflexivity.
Qed.

(** The theorem at the first chunk of the two-function source. *)
Lemma git_flag_gates_author_and_line_range_witness :
  In hello_chunk
     (process_file (one_file_world "a.py" hello_world_src)
                   "a.py" "." "repo" false)
  /\ author hello_chunk = EmptyString
  /\ Enrich.line_range hello_chunk = EmptyString.
Proof.
  split; [exact hello_chunk_emitted|].
  destruct (proj1 (git_flag_gates_author_and_line_range _ _ _ _ _ _
                     hello_chunk_emitted) eq_refl) as (H1 & H2 & _).
  split; assumption.
Defined.

(** ** Discovery: the allow-list, exclusion and the root *)

Lemma discover_In (t : tree) (repo_path : string)
    (extensions exclude_dirs : list string) (p : string) :
  In p (discover_code_files t repo_path extensions exclude_dirs) <->
  exists ds f,
    file_at t ds f
    /\ p = path_join (dir_path repo_path ds) f
    /\ In (file_ext f) (valid_extensions extensions)
    /\ Forall (fun d => ~ In d exclude_dirs) ds.
Proof.
  unfold discover_code_files. split.
  - intros H. apply in_flat_map in H. destruct H as ([r fs] & Hw & H).
    apply in_flat_map in H. destruct H as (f & Hf & H).
    destruct (mem (file_ext f) (valid_extensions extensions)) eqn:Em;
      [|contradiction].
    destruct H as [<-|[]].
    destruct (walk_sound _ _ _ _ _ _ Hw Hf) as (ds & H1 & -> & H3).
    exists ds, f. repeat split; auto. now apply mem_In.
  - intros (ds & f & Hat & -> & Hext & Hex).
    destruct (walk_complete _ _ _ _ Hat Hex repo_path) as (fs & H1 & H2).
    apply in_flat_map. exists (dir_path repo_path ds, fs).
    split; [assumption|].
    apply in_flat_map. exists f. split; [assumption|].
    apply mem_In in Hext. rewrite Hext. now left.
Qed.

Lemma valid_extension_starts_with_dot (extensions : list string) (e : string) :
  In e (valid_extensions extensions) -> startswith e "." = true.
Proof.
  unfold valid_extensions. intros H. apply in_map_iff in H.
  destruct H as (x & <- & _).
  destruct (startswith x ".") eqn:E; [exact E|].
  cbn [negb]. unfold startswith.
  change ("." ++ x)%string with (String "." x). cbn [String.prefix].
  destruct (ascii_dec "." ".") as [_|N]; [destruct x; reflexivity | congruence].
Qed.

Lemma valid_extensions_idempotent (extensions : list string) :
  valid_extensions (valid_extensions extensions) = valid_extensions extensions.
Proof.
  unfold valid_extensions at 1. rewrite <- (map_id (valid_extensions _)) at 2.
  apply map_ext_in. intros e He.
  now rewrite (valid_extension_starts_with_dot _ _ He).
Qed.

(** X11.  The leading dot of an extension is optional: discovery with an
    allow-list returns the same files, in the same order, as with the list
    in which every entry without a leading dot is given one. *)
Theorem extension_dot_is_optional (t : tree) (repo_path : string)
    (extensions exclude_dirs : list string) :
  discover_code_files t repo_path (valid_extensions extensions) exclude_dirs
  = discover_code_files t repo_path extensions exclude_dirs.
Proof.
  unfold discover_code_files. now rewrite valid_extensions_idempotent.
Qed.

(** X12.  Every file discovery returns has an extension: a name without a
    dot, or whose only dots are leading ones, is never returned, whatever
    the allow-list. *)
Theorem discovered_files_have_an_extension (t : tree) (repo_path : string)
    (extensions exclude_dirs : list string) (p : string) :
  In p (discover_code_files t repo_path extensions exclude_dirs) ->
  exists ds f,
    file_at t ds f /\ p = path_join (dir_path repo_path ds) f
    /\ splitext_ext f <> EmptyString
    /\ startswith (file_ext f) "." = true.
Proof.
  intros H. apply discover_In in H.
  destruct H as (ds & f & Hat & Hp & Hext & _).
  exists ds, f. repeat split; auto.
  - intros E. apply valid_extension_starts_with_dot in Hext.
    unfold file_ext in Hext. rewrite E in Hext. discriminate.
  - exact (valid_extension_starts_with_dot _ _ Hext).
Qed.

(** The theorem at the discovery scenario. *)
Lemma discovered_files_have_an_extension_witness :
  In "/repo/src/app.js"
     (discover_code_files sample_tree "/repo" ["js"] ["node_modules"])
  /\ exists ds f,
       file_at sample_tree ds f
       /\ "/repo/src/app.js" = path_join (dir_path "/repo" ds) f
       /\ splitext_ext f <> EmptyString
       /\ startswith (file_ext f) "." = true.
Proof.
  assert (H : In "/repo/src/app.js"
                 (discover_code_files sample_tree "/repo" ["js"]
                                      ["node_modules"]))
    by (vm_compute; left; reflexivity).
  split; [exact H|].
  exact (discovered_files_have_an_extension _ _ _ _ _ H).
Defined.

(** X13.  Excluding more directory names can only remove files: what
    discovery returns with a longer exclude list, it returns with the
    shorter one too. *)
Theorem excluding_more_returns_less (t : tree) (repo_path : string)
    (extensions exclude_dirs more : list string) (p : string) :
  In p (discover_code_files t repo_path extensions (exclude_dirs ++ more)) ->
  In p (discover_code_files t repo_path extensions exclude_dirs).
Proof.
  intros H. apply discover_In in H. apply discover_In.
  destruct H as (ds & f & Hat & Hp & Hext & Hex).
  exists ds, f. repeat split; auto.
  eapply Forall_impl; [|exact Hex].
  intros d Hd Hin. apply Hd. apply in_or_app. now left.
Qed.

(** The theorem at the discovery scenario. *)
Lemma excluding_more_returns_less_witness :
  In "/repo/src/app.js"
     (discover_code_files sample_tree "/repo" ["js"] ([] ++ ["node_modules"]))
  /\ In "/repo/src/app.js" (discover_code_files sample_tree "/repo" ["js"] []).
Proof.
  assert (H : In "/repo/src/app.js"
                 (discover_code_files sample_tree "/repo" ["js"]
                                      ([] ++ ["node_modules"])))
    by (vm_compute; left; reflexivity).
  split; [exact H|].
  exact (excluding_more_returns_less _ _ _ _ _ _ H).
Defined.

Lemma component_not_absolute (name : string) :
  component name = true -> startswith name "/" = false.
Proof.
  unfold component. destruct name as [|c s]; [discriminate|].
  cbn [truthy andb Search.contains_char]. unfold startswith.
  cbn [String.prefix].
  destruct (ascii_dec "/" c) as [<-|Hne]; [discriminate|].
  intros _. destruct s; reflexivity.
Qed.

Lemma path_join_extends (a b : string) :
  component b = true ->
  exists x, path_join a b = (a ++ x)%string /\ x <> EmptyString.
Proof.
  intros H. unfold path_join. rewrite (component_not_absolute _ H).
  assert (Hb : b <> EmptyString) by (destruct b; [discriminate H | discriminate]).
  destruct (negb (truthy a) || endswith_sep a).
  - exists b. auto.
  - exists ("/" ++ b)%string. split; [reflexivity | discriminate].
Qed.

Lemma string_app_assoc (a b c : string) :
  ((a ++ b) ++ c)%string = (a ++ (b ++ c))%string.
Proof. induction a as [|x a IH]; simpl; [reflexivity | now rewrite IH]. Qed.

Lemma dir_path_extends (ds : list string) :
  Forall (fun d => component d = true) ds ->
  forall root, exists x, dir_path root ds = (root ++ x)%string.
Proof.
  unfold dir_path. induction 1 as [|d ds Hd _ IH]; intros root; simpl.
  - exists EmptyString. induction root as [|c r IHr]; simpl; congruence.
  - destruct (path_join_extends root d Hd) as (x & -> & _).
    destruct (IH (root ++ x)%string) as (y & ->).
    exists (x ++ y)%string. apply string_app_assoc.
Qed.

Lemma components_file_at (t : tree) (ds : list string) (f : string) :
  file_at t ds f -> components t = true ->
  Forall (fun d => component d = true) ds /\ component f = true.
Proof.
  induction 1 as [files dirs f Hf | files dirs d sub ds f Hd _ IH];
    intros Hc; cbn [components] in Hc; apply andb_prop in Hc;
    destruct Hc as [Hfiles Hdirs].
  - split; [constructor|].
    rewrite forallb_forall in Hfiles. now apply Hfiles.
  - clear Hfiles. induction dirs as [|[d' sub'] dirs IHd]; [contradiction|].
    apply andb_prop in Hdirs. destruct Hdirs as [Hh Ht].
    apply andb_prop in Hh. destruct Hh as [Hd' Hsub'].
    destruct Hd as [E|Hd].
    + inversion E; subst. destruct (IH Hsub') as (H1 & H2).
      split; [constructor|]; assumption.
    + now apply IHd.
Qed.

(** X14.  Discovery never leaves the root: when the names of the tree are
    path components (not empty, without a separator), every path returned
    is the root path followed by a non-empty suffix. *)
Theorem discovered_paths_lie_under_root (t : tree) (repo_path : string)
    (extensions exclude_dirs : list string) (p : string) :
  components t = true ->
  In p (discover_code_files t repo_path extensions exclude_dirs) ->
  exists x, p = (repo_path ++ x)%string /\ x <> EmptyString.
Proof.
  intros Hc H. apply discover_In in H.
  destruct H as (ds & f & Hat & -> & _ & _).
  destruct (components_file_at _ _ _ Hat Hc) as (Hds & Hf).
  destruct (dir_path_extends ds Hds repo_path) as (x & ->).
  destruct (path_join_extends (repo_path ++ x) f Hf) as (y & -> & Hy).
  exists (x ++ y)%string. split; [apply string_app_assoc|].
  destruct x; [exact Hy | discriminate].
Qed.

(** The theorem at the discovery scenario. *)
Lemma discovered_paths_lie_under_root_witness :
  components sample_tree = true
  /\ In "/repo/src/app.js"
        (discover_code_files sample_tree "/repo" ["js"] ["node_modules"])
  /\ exists x, "/repo/src/app.js" = ("/repo" ++ x)%string /\ x <> EmptyString.
Proof.
  assert (H : In "/repo/src/app.js"
                 (discover_code_files sample_tree "/repo" ["js"]
                                      ["node_modules"]))
    by (vm_compute; left; reflexivity).
  split; [reflexivity|]. split; [exact H|].
  exact (discovered_paths_lie_under_root sample_tree "/repo" ["js"]
           ["node_modules"] _ eq_refl H).
Defined.

(** ** The batch writer: batches, counts and the store *)

Lemma chunks_concat {A} (b : nat) (q : nat) :
  0 < b ->
  forall l : list A,
    length l <= q * b ->
    concat (map (fun k => firstn b (skipn (k * b) l)) (seq 0 q)) = l.
Proof.
  intros Hb. induction q as [|q IH]; intros l Hl.
  - simpl in *. destruct l; [reflexivity | simpl in Hl; lia].
  - rewrite <- cons_seq, <- seq_shift. cbn [map concat]. rewrite map_map.
    etransitivity; [|apply (firstn_skipn b l)]. f_equal.
    transitivity
      (concat (map (fun k => firstn b (skipn (k * b) (skipn b l))) (seq 0 q))).
    + f_equal. apply map_ext. intros k.
      rewrite skipn_skipn. f_equal. f_equal. lia.
    + apply IH. rewrite length_skipn. lia.
Qed.

Lemma batch_count_covers (len bs : Z) :
  (0 < bs)%Z -> (0 <= len)%Z ->
  (len <= (len + bs - 1) / bs * bs)%Z
  /\ (0 < len -> ((len + bs - 1) / bs - 1) * bs < len)%Z.
Proof.
  intros Hb Hl.
  pose proof (Z.div_mod (len + bs - 1) bs ltac:(lia)) as H.
  pose proof (Z.mod_pos_bound (len + bs - 1) bs Hb) as H'.
  split; nia.
Qed.

(** The batches of a run, as lists of records. *)
Lemma batches_by_index (data : list record) (bs : Z) :
  (0 < bs)%Z ->
  map (fun i => Writer.slice data i (i + bs))
      (Writer.range_step (Z.of_nat (length data)) bs)
  = map (fun k => firstn (Z.to_nat bs) (skipn (k * Z.to_nat bs) data))
        (seq 0 (Z.to_nat ((Z.of_nat (length data) + bs - 1) / bs))).
Proof.
  intros Hb. unfold Writer.range_step.
  destruct (Z.ltb_spec 0 bs); [|lia].
  rewrite map_map. apply map_ext. intros k. unfold Writer.slice.
  f_equal; [f_equal; lia|]. f_equal. nia.
Qed.

(** The batches of a run cover the records, each with at least one record
    and at most the batch size. *)
Lemma batches_cover (data : list record) (bs : Z) :
  (0 < bs)%Z ->
  concat (map (fun i => Writer.slice data i (i + bs))
              (Writer.range_step (Z.of_nat (length data)) bs))
  = data
  /\ Forall (fun batch => 1 <= length batch
                          /\ (Z.of_nat (length batch) <= bs)%Z)
            (map (fun i => Writer.slice data i (i + bs))
                 (Writer.range_step (Z.of_nat (length data)) bs)).
Proof.
  intros Hb.
  rewrite (batches_by_index data bs Hb).
  set (len := Z.of_nat (length data)).
  assert (Hlen : (0 <= len)%Z) by (unfold len; lia).
  destruct (batch_count_covers len bs Hb Hlen) as (Hc1 & Hc2).
  pose proof (Z.div_pos (len + bs - 1) bs ltac:(lia) Hb) as Hq.
  split.
  - apply chunks_concat; [lia|]. unfold len in *. nia.
  - apply Forall_forall. intros batch Hin. apply in_map_iff in Hin.
    destruct Hin as (k & <- & Hk). apply in_seq in Hk.
    rewrite length_firstn, length_skipn.
    assert (Hkb : (Z.of_nat k * bs < len)%Z).
    { assert (Z.of_nat k <= (len + bs - 1) / bs - 1)%Z by lia.
      assert (0 < len)%Z by (destruct (Z.eq_dec len 0) as [E|]; [|lia];
                             rewrite E in *;
                             rewrite Z.div_small in Hk by lia; simpl in Hk; lia).
      nia. }
    unfold len in *. nia.
Qed.

(** X15.  For a positive batch size the batches the writer builds are a
    partition of the records, in order: put end to end they give back the
    list, so no record is left out or sent twice; each batch holds at least
    one record and at most the batch size, hence never more than 25. *)
Theorem batches_partition_the_records
    (config_batch_size : Z) (batch_size : option Z) (data : list record) :
  (0 < effective_batch_size config_batch_size batch_size)%Z ->
  let bs := effective_batch_size config_batch_size batch_size in
  let batches :=
    map (fun i => Writer.slice data i (i + bs))
        (Writer.range_step (Z.of_nat (length data)) bs) in
  concat batches = data
  /\ Forall (fun batch => 1 <= length batch
                          /\ (Z.of_nat (length batch) <= bs)%Z
                          /\ length batch <= 25) batches.
Proof.
  intros Hb bs batches. subst batches. fold bs in Hb.
  assert (H25 : (bs <= 25)%Z)
    by (unfold bs, effective_batch_size; lia).
  destruct (batches_cover data bs Hb) as (Hc & Hf).
  split; [exact Hc|].
  eapply Forall_impl; [|exact Hf]. cbv beta. intros batch (H1 & H2).
  repeat split; lia.
Qed.

(** The theorem at the run of 60 records in batches of 25. *)
Lemma batches_partition_the_records_witness :
  (0 < effective_batch_size 500 (Some 25))%Z
  /\ concat (map (fun i => Writer.slice sixty_chunks i (i + 25)%Z)
                 (Writer.range_step 60%Z 25%Z))
     = sixty_chunks.
Proof.
  split; [reflexivity|].
  exact (proj1 (batches_partition_the_records 500%Z (Some 25%Z) sixty_chunks
                  eq_refl)).
Defined.

Lemma inserted_records_app (l1 l2 : list event) :
  inserted_records (l1 ++ l2) = inserted_records l1 + inserted_records l2.
Proof.
  induction l1 as [|e l1 IH]; [reflexivity|].
  destruct e; simpl; rewrite IH; lia.
Qed.

(** The count of [Reconnecting] messages. *)
Lemma reconnects_app (l1 l2 : list event) :
  length (filter is_reconnect (l1 ++ l2))
  = length (filter is_reconnect l1) + length (filter is_reconnect l2).
Proof. now rewrite filter_app, length_app. Qed.

Section Ledger.

Variable Server : Type.
Variable execute_query : Server -> string -> Server * bool.
Variable reconnect : Server -> Server.
Variable kb_name : string.

(** One batch, with everything the messages tell. *)
Lemma attempts_ledger (batch_data : list record)
    (batch_num total_batches : Z) (srv : Server) :
  let '(_, log, ok) :=
    attempts Server execute_query reconnect kb_name (Z.to_nat max_retries)
             0%Z batch_data batch_num total_batches srv in
  inserted_records log = (if ok then length batch_data else 0)
  /\ length (filter is_reconnect log) <= 2
  /\ (ok = true -> insert_query kb_name batch_data <> None)
  /\ (ok = true -> length (filter is_reconnect log) = 0 \/
                   exists s q, snd (execute_query s q) = false).
Proof.
  change (Z.to_nat max_retries) with 3. cbn [attempts].
  destruct (insert_query kb_name batch_data) as [q|].
  - destruct (execute_query srv q) as [s1 [|]] eqn:E1;
      [cbn; repeat split; auto; discriminate|].
    assert (Hbad : exists s q, snd (execute_query s q) = false)
      by (exists srv, q; now rewrite E1).
    cbn. destruct (execute_query (reconnect s1) q) as [s2 [|]];
      [cbn; repeat split; auto; discriminate|].
    cbn. destruct (execute_query (reconnect s2) q) as [s3 [|]];
      cbn; repeat split; auto; discriminate.
  - cbn. repeat split; auto; discriminate.
Qed.

(** The loop over the batches, with the records that went in. *)
Lemma batch_loop_ledger (data : list record) (batch_size total : Z)
    (starts : list Z) :
  (0 < batch_size)%Z ->
  forall srv log n,
    let '(_, log', _) :=
      fold_left (batch_step Server execute_query reconnect kb_name
                            data batch_size total)
                starts (srv, log, n) in
    let sent :=
      length (concat (map (fun i => Writer.slice data i (i + batch_size)%Z)
                          starts)) in
    inserted_records log' <= inserted_records log + sent
    /\ (failed log' = failed log ->
        inserted_records log' = inserted_records log + sent)
    /\ (failed log <= failed log')%Z
    /\ (Z.of_nat (inserted_records log')
        <= Z.of_nat (inserted_records log)
           + (succeeded log' - succeeded log) * batch_size)%Z
    /\ length (filter is_reconnect log')
       <= length (filter is_reconnect log) + 2 * length starts.
Proof.
  intros Hb. induction starts as [|i starts IH]; intros srv log n.
  - simpl. repeat split; lia.
  - cbn [fold_left]. unfold batch_step at 2.
    pose proof (attempts_accounting Server execute_query reconnect kb_name
                  (Writer.slice data i (i + batch_size)) (i / batch_size + 1)
                  total srv) as Ha.
    pose proof (attempts_ledger (Writer.slice data i (i + batch_size))
                  (i / batch_size + 1)%Z total srv) as Hl.
    destruct (attempts _ _ _ _ _ _ _ _ _ _) as [[srv1 log1] ok].
    destruct Hl as (Hi1 & Hr1 & _).
    specialize (IH srv1 (log ++ log1)
                   (if ok then (n + 1)%Z else n)).
    pose proof (batch_loop_accounting Server execute_query reconnect kb_name
                  data batch_size total starts srv1 (log ++ log1)
                  (if ok then (n + 1)%Z else n)) as Hacc.
    destruct (fold_left _ starts _) as [[srv' log'] n'].
    cbv zeta in IH |- *.
    rewrite inserted_records_app, failed_app, succeeded_app,
      reconnects_app in IH.
    rewrite succeeded_app, failed_app in Hacc.
    cbn [map concat length]. rewrite length_app.
    assert (Hsz : (Z.of_nat (length (Writer.slice data i (i + batch_size)))
                   <= batch_size)%Z).
    { unfold Writer.slice. rewrite length_firstn. lia. }
    destruct IH as (I1 & I2 & I3 & I4 & I5).
    destruct ok; destruct Ha as (Hs1 & Hf1); repeat split; try lia;
      intros E; try lia; rewrite I2; lia.
Qed.

End Ledger.




Section Counting.

Variable Server : Type.
Variable execute_query : Server -> string -> Server * bool.
Variable reconnect : Server -> Server.
Variable kb_name : string.



End Counting.



(** X18.  With no record, or with an effective batch size that is not
    positive, the store receives no query at all and no batch is reported
    as inserted. *)
Theorem no_query_without_records_or_batch_size (Server : Type)
    (execute_query : Server -> string -> Server * bool)
    (reconnect : Server -> Server) (kb_name : string)
    (config_batch_size : Z) (srv : Server) (data : list record)
    (batch_size : option Z) :
  data = [] \/ (effective_batch_size config_batch_size batch_size <= 0)%Z ->
  exists log ret,
    insert_data (Server * nat) (counted execute_query)
                (counted_reconnect reconnect) kb_name config_batch_size
                (srv, 0) data batch_size
    = ((srv, 0), log, ret)
    /\ inserted_records log = 0
    /\ succeeded log = 0%Z /\ failed log = 0%Z.
Proof.
  intros H.
  destruct data as [|r data'].
  - exists [NoData], true. cbn. repeat split; auto.
  - destruct H as [H|Hbs]; [discriminate|].
    unfold insert_data.
    set (bs := effective_batch_size config_batch_size batch_size) in *.
    destruct (Z.eqb_spec bs 0) as [E|E].
    + eexists _, false. split; [reflexivity|]. cbn. repeat split; auto.
    + unfold Writer.range_step. destruct (Z.ltb_spec 0 bs); [lia|].
      cbn [fold_left].
      destruct (0 =? _)%Z; [|destruct (0 <? 0)%Z];
        eexists _, _; (split; [reflexivity|]); cbn; repeat split; auto.
Qed.

(** The theorem at a batch size of -1. *)
Lemma no_query_without_records_or_batch_size_witness :
  (one_chunk = [] \/ (effective_batch_size 500 (Some (-1)) <= 0)%Z)
  /\ exists log ret,
       insert_data (nat * nat) (counted flaky_query)
                   (counted_reconnect (fun n => n)) "codebase_kb" 500%Z
                   (0, 0) one_chunk (Some (-1)%Z)
       = ((0, 0), log, ret)
       /\ inserted_records log = 0.
Proof.
  assert (H : one_chunk = []
              \/ (effective_batch_size 500 (Some (-1)) <= 0)%Z)
    by (right; vm_compute; discriminate).
  split; [exact H|].
  destruct (no_query_without_records_or_batch_size nat flaky_query
              (fun n => n) "codebase_kb" 500%Z 0 one_chunk (Some (-1)%Z) H)
    as (log & ret & E & Hi & _).
  exists log, ret. split; [exact E | exact Hi].
Defined.

(** X19.  A negative batch size can make the writer announce a full success
    although nothing was sent: with at least two records and at most
    [1 - batch_size] of them, the number of batches is computed as zero, no
    batch runs, and the run ends with "Successfully inserted all n records
    in 0 batches" and returns [true]. *)
Theorem negative_batch_size_reports_success (Server : Type)
    (execute_query : Server -> string -> Server * bool)
    (reconnect : Server -> Server) (kb_name : string)
    (config_batch_size : Z) (srv : Server) (data : list record)
    (batch_size : option Z) :
  let bs := effective_batch_size config_batch_size batch_size in
  (bs < 0)%Z ->
  2 <= length data ->
  (Z.of_nat (length data) <= 1 - bs)%Z ->
  insert_data (Server * nat) (counted execute_query)
              (counted_reconnect reconnect) kb_name config_batch_size
              (srv, 0) data batch_size
  = ((srv, 0),
     [UsingBatchSize bs; TotalRecords (length data);
      InsertedAll (length data) 0],
     true).
Proof.
  intros bs Hneg H2 Hlen.
  destruct data as [|r data']; [simpl in H2; lia|].
  unfold insert_data. fold bs.
  destruct (Z.eqb_spec bs 0) as [E|_]; [lia|].
  unfold Writer.range_step. destruct (Z.ltb_spec 0 bs); [lia|].
  cbn [fold_left].
  assert (Hq : ((Z.of_nat (length (r :: data')) + bs - 1) / bs = 0)%Z).
  { set (len := Z.of_nat (length (r :: data'))) in *.
    assert (2 <= len)%Z by (unfold len; lia).
    pose proof (Z.div_mod (len + bs - 1) bs ltac:(lia)) as Hd.
    pose proof (Z.mod_neg_bound (len + bs - 1) bs Hneg) as Hm.
    nia. }
  rewrite Hq. reflexivity.
Qed.

(** The theorem at two records and a batch size of -1. *)
Lemma negative_batch_size_reports_success_witness :
  (effective_batch_size 500 (Some (-1)) < 0)%Z
  /\ 2 <= length (one_chunk ++ one_chunk)
  /\ insert_data (nat * nat) (counted flaky_query)
                 (counted_reconnect (fun n => n)) "codebase_kb" 500%Z
                 (0, 0) (one_chunk ++ one_chunk)%list (Some (-1)%Z)
     = ((0, 0),
        [UsingBatchSize (-1); TotalRecords 2; InsertedAll 2 0], true).
Proof.
  split; [reflexivity|]. split; [vm_compute; lia|].
  exact (negative_batch_size_reports_success nat flaky_query (fun n => n)
           "codebase_kb" 500%Z 0 (one_chunk ++ one_chunk)%list
           (Some (-1)%Z) eq_refl ltac:(vm_compute; lia)
           ltac:(vm_compute; discriminate)).
Defined.


Lemma traverse_some {A B} (f : A -> option B) (xs : list A) :
  (forall x, In x xs -> f x <> None) -> traverse f xs <> None.
Proof.
  induction xs as [|y xs IH]; intros H; cbn [traverse]; [discriminate|].
  destruct (f y) eqn:Ey; [|exfalso; apply (H y); [now left | exact Ey]].
  destruct (traverse f xs) eqn:Et; [discriminate|].
  exfalso. apply IH; [|reflexivity]. intros x Hx. apply H. now right.
Qed.

Lemma lookup_key (r : record) (col : string) :
  In col (map fst r) -> lookup r col <> None.
Proof.
  induction r as [|[k v] r IH]; [contradiction|].
  cbn [map fst In lookup]. intros [->|Hin].
  - now rewrite String.eqb_refl.
  - destruct (String.eqb k col); [discriminate | auto].
Qed.


(** Records with the same columns always give a statement. *)
Lemma insert_query_uniform (kb_name : string) (batch_data : list record)
    (columns : list string) :
  batch_data <> [] ->
  (forall r, In r batch_data -> map fst r = columns) ->
  insert_query kb_name batch_data <> None.
Proof.
  intros Hne Hu. destruct batch_data as [|first rest]; [contradiction|].
  unfold insert_query.
  destruct (traverse (row (map fst first)) (first :: rest)) eqn:Et;
    [discriminate|].
  exfalso. revert Et. apply traverse_some. intros r Hr. unfold row.
  destruct (traverse _ (map fst first)) eqn:Ec; [discriminate|].
  exfalso. revert Ec. apply traverse_some. intros col Hcol.
  rewrite (Hu first (or_introl eq_refl)) in Hcol.
  rewrite <- (Hu r Hr) in Hcol.
  pose proof (lookup_key r col Hcol) as Hl.
  destruct (lookup r col); [discriminate | contradiction].
Qed.



Lemma drop_last_app (s : string) (c : ascii) :
  drop_last (s ++ String c EmptyString) = s.
Proof.
  induction s as [|a s IH]; [reflexivity|].
  cbn [append drop_last]. rewrite IH.
  destruct s; reflexivity.
Qed.

Lemma double_char_same (c : ascii) (s : string) :
  double_char c (String c s) = String c (String c (double_char c s)).
Proof. cbn [double_char]. now rewrite Ascii.eqb_refl. Qed.

Lemma double_char_other (c a : ascii) (s : string) :
  a <> c -> double_char c (String a s) = String a (double_char c s).
Proof.
  intros H. cbn [double_char]. apply Ascii.eqb_neq in H. now rewrite H.
Qed.

Lemma undouble_pair (a : ascii) (r : string) :
  a = quote \/ a = backslash ->
  undouble (String a (String a r)) = String a (undouble r).
Proof.
  intros H. cbn [undouble]. rewrite Ascii.eqb_refl.
  destruct H as [-> | ->]; rewrite Ascii.eqb_refl;
    rewrite ?orb_true_r; reflexivity.
Qed.

Lemma undouble_single (a : ascii) (r : string) :
  a <> quote -> a <> backslash ->
  undouble (String a r) = String a (undouble r).
Proof.
  intros Hq Hb. apply Ascii.eqb_neq in Hq, Hb.
  destruct r as [|b r]; [reflexivity|].
  cbn [undouble]. rewrite Hq, Hb, andb_false_r. reflexivity.
Qed.

Lemma undouble_doubled (s : string) :
  undouble (double_char quote (double_char backslash s)) = s.
Proof.
  assert (Hqb : backslash <> quote) by discriminate.
  induction s as [|c s IH]; [reflexivity|].
  destruct (ascii_dec c backslash) as [->|Hb].
  - rewrite double_char_same, !(double_char_other quote backslash) by exact Hqb.
    rewrite undouble_pair by now right. now rewrite IH.
  - rewrite (double_char_other backslash c) by exact Hb.
    destruct (ascii_dec c quote) as [->|Hq].
    + rewrite double_char_same, undouble_pair by now left. now rewrite IH.
    + rewrite (double_char_other quote c) by exact Hq.
      rewrite undouble_single by assumption. now rewrite IH.
Qed.

(** X21.  The literal written for a string value reads back as the value:
    it opens with a quote, and undoing the doubling of quotes and
    backslashes in what lies before the closing quote gives the string
    itself.  Hence two different strings never get the same literal, and
    no string, not even [NULL], is written as the [NULL] of a missing
    value. *)
Theorem escaped_string_reads_back (s : string) :
  unquote (escape (VStr s)) = Some s
  /\ (forall s', escape (VStr s) = escape (VStr s') -> s = s')
  /\ escape (VStr s) <> escape VNone.
Proof.
  assert (Hn : escape (VStr s) <> escape VNone) by discriminate.
  refine ((fun H => conj (proj1 H) (conj (proj2 H) Hn)) _).
  assert (H : forall t, unquote (escape (VStr t)) = Some t).
  { intros t. unfold escape, quoted. cbn [append unquote].
    rewrite Ascii.eqb_refl, drop_last_app, undouble_doubled. reflexivity. }
  split; [apply H|].
  intros s' E. apply (f_equal unquote) in E. rewrite !H in E.
  now injection E.
Qed.

Section Accepting.

Variable Server : Type.
Variable execute_query : Server -> string -> Server * bool.
Variable reconnect : Server -> Server.
Variable kb_name : string.

(** The store lets every query through. *)
Hypothesis accepts : forall s q, snd (execute_query s q) = true.

Lemma attempts_accepted (batch_data : list record)
    (batch_num total_batches : Z) (srv : Server) :
  insert_query kb_name batch_data <> None ->
  exists srv',
    attempts Server execute_query reconnect kb_name (Z.to_nat max_retries)
             0%Z batch_data batch_num total_batches srv
    = (srv', [InsertedBatch batch_num total_batches (length batch_data)],
       true).
Proof.
  intros Hq. change (Z.to_nat max_retries) with 3. cbn [attempts].
  destruct (insert_query kb_name batch_data) as [q|]; [|contradiction].
  pose proof (accepts srv q) as Ha.
  destruct (execute_query srv q) as [s1 ok]. cbn [snd] in Ha. subst ok.
  now exists s1.
Qed.

Lemma batch_loop_accepted (data : list record) (batch_size total : Z)
    (starts : list Z) :
  (forall i, In i starts ->
             insert_query kb_name (Writer.slice data i (i + batch_size))
             <> None) ->
  forall srv log n,
    let '(_, log', _) :=
      fold_left (batch_step Server execute_query reconnect kb_name
                            data batch_size total)
                starts (srv, log, n) in
    failed log' = failed log
    /\ filter is_reconnect log' = filter is_reconnect log.
Proof.
  induction starts as [|i starts IH]; intros Hq srv log n.
  - cbn. auto.
  - cbn [fold_left]. unfold batch_step at 2.
    destruct (attempts_accepted (Writer.slice data i (i + batch_size))
                (i / batch_size + 1)%Z total srv
                (Hq i (or_introl eq_refl))) as (s1 & E).
    rewrite E.
    specialize (IH (fun j Hj => Hq j (or_intror Hj)) s1
                   (log ++
                    [InsertedBatch (i / batch_size + 1) total
                       (length (Writer.slice data i (i + batch_size)))])%list
                   (n + 1)%Z).
    destruct (fold_left _ starts _) as [[srv' log'] n'].
    destruct IH as (I1 & I2). rewrite I1, I2, failed_app, filter_app.
    cbn. rewrite app_nil_r. split; [lia | reflexivity].
Qed.

(** With records of the same columns, every batch goes in at its first
    attempt. *)
Lemma insert_data_accepted (config_batch_size : Z) (srv : Server)
    (data : list record) (batch_size : option Z) (columns : list string) :
  data <> [] ->
  (0 < effective_batch_size config_batch_size batch_size)%Z ->
  (forall r, In r data -> map fst r = columns) ->
  let bs := effective_batch_size config_batch_size batch_size in
  exists srv' log,
    insert_data Server execute_query reconnect kb_name config_batch_size srv
                data batch_size
    = (srv', log, true)
    /\ report log
       = InsertedAll (length data) ((Z.of_nat (length data) + bs - 1) / bs)
    /\ inserted_records log = length data
    /\ filter is_reconnect log = []
    /\ failed log = 0%Z.
Proof.
  intros Hne Hbs Hu bs. fold bs in Hbs.
  destruct data as [|r0 data']; [contradiction|].
  set (data := r0 :: data') in *.
  unfold insert_data. fold data. fold bs.
  destruct (Z.eqb_spec bs 0) as [E|_]; [lia|].
  set (len := Z.of_nat (length data)).
  set (log0 := [UsingBatchSize bs; TotalRecords (length data)]).
  pose proof (range_step_length len bs Hbs ltac:(lia)) as Hr.
  destruct (batches_cover data bs Hbs) as (Hcat & Hall).
  fold len in Hcat, Hall.
  assert (Hq : forall i, In i (Writer.range_step len bs) ->
               insert_query kb_name (Writer.slice data i (i + bs)) <> None).
  { intros i Hi. rewrite Forall_forall in Hall.
    destruct (Hall (Writer.slice data i (i + bs))) as (H1 & _).
    { apply in_map_iff. now exists i. }
    apply (insert_query_uniform kb_name _ columns).
    - intros E. rewrite E in H1. simpl in H1. lia.
    - intros r Hin. apply Hu. unfold Writer.slice in Hin.
      eapply In_skipn, In_firstn, Hin. }
  pose proof (batch_loop_accepted data bs ((len + bs - 1) / bs)%Z
                (Writer.range_step len bs) Hq srv log0 0%Z) as Ha.
  pose proof (batch_loop_ledger Server execute_query reconnect kb_name
                data bs ((len + bs - 1) / bs)%Z (Writer.range_step len bs)
                Hbs srv log0 0%Z) as Hl.
  pose proof (batch_loop_accounting Server execute_query reconnect kb_name
                data bs ((len + bs - 1) / bs)%Z (Writer.range_step len bs)
                srv log0 0%Z) as Hacc.
  destruct (fold_left
              (batch_step Server execute_query reconnect kb_name data bs
                          ((len + bs - 1) / bs)%Z)
              (Writer.range_step len bs) (srv, log0, 0%Z))
    as [[srv' log] n].
  cbv zeta in Hl. rewrite Hcat in Hl.
  destruct Ha as (Hf & Hrc). destruct Hl as (_ & Hins & _).
  destruct Hacc as (_ & Hfail & _).
  change (failed log0) with 0%Z in *.
  change (inserted_records log0) with 0 in *.
  change (filter is_reconnect log0) with (@nil event) in *.
  destruct (Z.eqb_spec n ((len + bs - 1) / bs)) as [En|En]; [|lia].
  exists srv', (log ++ [InsertedAll (length data) n])%list.
  split; [reflexivity|].
  rewrite report_last, inserted_records_app, filter_app, failed_app, Hrc, Hf.
  rewrite (Hins Hf), En. cbn. repeat split; lia.
Qed.

End Accepting.

(** X22.  When the records all have the same columns and the store lets
    every query through, a run with a positive batch size returns [true],
    ends with the report of a full success, counts every record as
    inserted, and never reconnects or fails a batch. *)
Theorem accepting_store_takes_every_record (Server : Type)
    (execute_query : Server -> string -> Server * bool)
    (reconnect : Server -> Server) (kb_name : string)
    (config_batch_size : Z) (srv : Server) (data : list record)
    (batch_size : option Z) (columns : list string) :
  (forall s q, snd (execute_query s q) = true) ->
  data <> [] ->
  (0 < effective_batch_size config_batch_size batch_size)%Z ->
  (forall r, In r data -> map fst r = columns) ->
  exists srv' log,
    insert_data Server execute_query reconnect kb_name config_batch_size srv
                data batch_size
    = (srv', log, true)
    /\ outcome_of (report log) = Success
    /\ inserted_records log = length data
    /\ filter is_reconnect log = []
    /\ failed log = 0%Z.
Proof.
  intros Ha Hne Hbs Hu.
  destruct (insert_data_accepted Server execute_query reconnect kb_name Ha
              config_batch_size srv data batch_size columns Hne Hbs Hu)
    as (srv' & log & E & Hr & Hi & Hrc & Hf).
  exists srv', log. rewrite Hr. repeat split; assumption.
Qed.

(** The theorem at 60 records and a store that accepts everything. *)
Lemma accepting_store_takes_every_record_witness :
  (forall (s : nat) (q : string), snd (S s, true) = true)
  /\ sixty_chunks <> []
  /\ (0 < effective_batch_size 500 (Some 25))%Z
  /\ (forall r, In r sixty_chunks
                -> map fst r = ["chunk_id"; "code_chunk"; "author"])
  /\ exists srv' log,
       insert_data nat (fun s _ => (S s, true)) (fun s => s) "codebase_kb"
                   500%Z 0 sixty_chunks (Some 25%Z)
       = (srv', log, true)
       /\ inserted_records log = 60.
Proof.
  assert (H1 : forall (s : nat) (q : string), snd (S s, true) = true)
    by reflexivity.
  assert (H2 : sixty_chunks <> []) by discriminate.
  assert (H3 : (0 < effective_batch_size 500 (Some 25))%Z) by reflexivity.
  assert (H4 : forall r, In r sixty_chunks
                         -> map fst r = ["chunk_id"; "code_chunk"; "author"]).
  { intros r Hr. apply repeat_spec in Hr. now subst r. }
  split; [exact H1|]. split; [exact H2|]. split; [exact H3|].
  split; [exact H4|].
  destruct (accepting_store_takes_every_record nat (fun s _ => (S s, true))
              (fun s => s) "codebase_kb" 500%Z 0 sixty_chunks (Some 25%Z)
              ["chunk_id"; "code_chunk"; "author"] H1 H2 H3 H4)
    as (srv' & log & E & _ & Hi & _).
  exists srv', log. split; [exact E | exact Hi].
Defined.

Import Ingest Scenes.

(** X23.  Every chunk that [ingest_repository] returns comes from a file of
    the clone that discovery lets through: a file whose lower-cased extension
    is allowed and that lies under no excluded directory.  The chunk is
    labelled with the URL given by the caller, its path is the path of that
    file relative to the temporary directory, its language is the one of the
    file's extension, and its identifier is the one computed from its own
    [repo], [filepath] and [function_name] fields. *)
Theorem ingested_chunks_come_from_discovered_files
    (h : host) (repo_url branch : string)
    (extensions exclude_dirs : option (list string))
    (extract_git_info cleanup : bool)
    (chunks : list chunk) (events : list fs_event) (c : chunk) :
  ingest_repository h repo_url branch extensions exclude_dirs
                    extract_git_info cleanup
  = (Some chunks, events) ->
  In c chunks ->
  exists t ds f,
    clone_from h repo_url branch = Some t
    /\ file_at t ds f
    /\ Forall (fun d => ~ In d (if_none exclude_dirs DEFAULT_EXCLUDE_DIRS)) ds
    /\ In (file_ext f)
          (valid_extensions (if_none extensions DEFAULT_EXTENSIONS))
    /\ filepath c
       = relpath (world_of h) (path_join (dir_path (mkdtemp h) ds) f)
                 (mkdtemp h)
    /\ repo_field c = repo_url
    /\ Enrich.language c
       = language_of (path_join (dir_path (mkdtemp h) ds) f)
    /\ chunk_id c
       = make_chunk_id (repo_field c) (filepath c) (function_name c).
Proof.
  unfold ingest_repository, clone_repository.
  destruct (clone_from h repo_url branch) as [t|]; [|discriminate].
  intros H Hin. injection H as <- _.
  apply in_flat_map in Hin. destruct Hin as (p & Hp & Hc).
  apply discover_In in Hp. destruct Hp as (ds & f & Hfa & -> & Hext & Hex).
  apply process_file_In in Hc.
  destruct Hc as (content & md & fn & _ & _ & _ & ->).
  exists t, ds, f. unfold make_chunk.
  cbn [filepath repo_field Enrich.language chunk_id function_name].
  repeat split; auto.
Qed.

(** The theorem at the clone with [a.py] and a dependency directory. *)
Lemma ingested_chunks_come_from_discovered_files_witness :
  ingest_repository sample_host "repo" "main" None None false true
  = (Some [hello_chunk; world_chunk],
     [Mkdtemp "/tmp/semantic_nav_1"; Rmtree "/tmp/semantic_nav_1"])
  /\ In hello_chunk [hello_chunk; world_chunk]
  /\ repo_field hello_chunk = "repo".
Proof.
  assert (H1 : ingest_repository sample_host "repo" "main" None None false
                                 true
               = (Some [hello_chunk; world_chunk],
                  [Mkdtemp "/tmp/semantic_nav_1";
                   Rmtree "/tmp/semantic_nav_1"]))
    by (vm_compute; reflexivity).
  assert (H2 : In hello_chunk [hello_chunk; world_chunk])
    by (left; reflexivity).
  split; [exact H1|]. split; [exact H2|].
  destruct (ingested_chunks_come_from_discovered_files sample_host "repo"
              "main" None None false true _ _ hello_chunk H1 H2)
    as (t & ds & f & _ & _ & _ & _ & _ & Hr & _).
  exact Hr.
Defined.






Import Jobs Search.

Lemma split_on_free (sep : ascii) (s : string) :
  contains_char sep s = false -> split_on sep s = [s].
Proof.
  induction s as [|c s IH]; [reflexivity|].
  cbn [contains_char split_on]. intros H. apply orb_false_elim in H.
  destruct H as (Hc & Hs). rewrite Hc, (IH Hs). reflexivity.
Qed.

Lemma split_on_pieces_free (sep : ascii) (s x : string) :
  In x (split_on sep s) -> contains_char sep x = false.
Proof.
  revert x. induction s as [|c s IH]; intros x.
  - cbn. intros [<-|[]]. reflexivity.
  - cbn [split_on]. destruct (Ascii.eqb c sep) eqn:Ec.
    + intros [<-|H]; [reflexivity | now apply IH].
    + destruct (split_on sep s) as [|l ls].
      * intros [<-|[]]. cbn. now rewrite Ec.
      * intros [<-|H].
        -- cbn [contains_char]. rewrite Ec. apply IH. now left.
        -- apply IH. now right.
Qed.

Lemma split_on_last (sep : ascii) (seg : string) :
  contains_char sep seg = false ->
  forall p,
    last (split_on sep (p ++ String sep seg)) EmptyString = seg.
Proof.
  intros Hseg p.
  assert (H : exists l ls, split_on sep (p ++ String sep seg) = l :: ls
                           /\ ls <> [] /\ last ls EmptyString = seg).
  { induction p as [|c p IH].
    - cbn [append split_on]. rewrite Ascii.eqb_refl, (split_on_free _ _ Hseg).
      exists EmptyString, [seg]. repeat split. discriminate.
    - destruct IH as (l & ls & E & Hne & Hl).
      cbn [append split_on]. rewrite E.
      destruct (Ascii.eqb c sep).
      + exists EmptyString, (l :: ls). repeat split; [discriminate|].
        destruct ls; [contradiction | exact Hl].
      + exists (String c l), ls. auto. }
  destruct H as (l & ls & -> & Hne & Hl).
  destruct ls; [contradiction | exact Hl].
Qed.

Lemma delete_all_free (c : ascii) (pat s : string) :
  contains_char c s = false ->
  forall skip, contains_char c (delete_all pat s skip) = false.
Proof.
  induction s as [|a s IH]; intros H skip; [reflexivity|].
  cbn [contains_char] in H. apply orb_false_elim in H. destruct H as (Ha & Hs).
  cbn [delete_all]. destruct skip; [|now apply IH].
  destruct (String.prefix pat (String a s)); [now apply IH|].
  cbn [contains_char]. rewrite Ha. now apply IH.
Qed.

Lemma last_In_or_default {A} (l : list A) (d : A) :
  last l d = d \/ In (last l d) l.
Proof.
  induction l as [|x l IH]; [now left|].
  destruct l as [|y l]; [right; now left|].
  destruct IH as [E|H]; [| right; now right].
  change (last (x :: y :: l) d) with (last (y :: l) d).
  destruct (exists_last (l := y :: l) ltac:(discriminate)) as (l' & z & E').
  rewrite E' in *. rewrite last_last. right. right.
  apply in_or_app. right. now left.
Qed.

(** X26.  The name of a sync job is built from the last segment of the
    repository URL alone: what precedes the last slash (host, owner) does
    not enter it, so repositories with the same last segment share one job
    name, and a URL that ends with a slash gives the bare name [sync_]. *)
Theorem job_name_is_last_segment_only (p seg : string) :
  contains_char "/" seg = false ->
  job_name (p ++ "/" ++ seg)
  = ("sync_" ++ delete_all ".git" seg 0)%string.
Proof.
  intros H. unfold job_name.
  change ("/" ++ seg)%string with (String "/" seg).
  now rewrite (split_on_last "/" seg H p).
Qed.

(** The theorem at two repositories called [app] of different owners. *)
Lemma job_name_is_last_segment_only_witness :
  contains_char "/" "app.git" = false
  /\ job_name "https://github.com/alice/app.git" = "sync_app"
  /\ job_name "https://gitlab.com/bob/app.git" = "sync_app".
Proof.
  split; [reflexivity|]. split.
  - exact (job_name_is_last_segment_only "https://github.com/alice" "app.git"
             eq_refl).
  - reflexivity.
Defined.

Lemma prefix_app (p s : string) : String.prefix p (p ++ s) = true.
Proof.
  induction p as [|a p IH]; [destruct s; reflexivity|].
  cbn [append String.prefix].
  destruct (ascii_dec a a); [exact IH | contradiction].
Qed.

(** X27.  A job whose name was built by [create_sync_job] passes the filter
    of [list_sync_jobs]: whenever the server answers 200 and the job is
    among those it returns, the job is listed, under that name.  The name
    holds no slash, so it is one segment of the address that
    [delete_sync_job] builds from it. *)
Theorem created_job_is_listed (repo_url : string) (j : job)
    (all_jobs : list job) :
  In j all_jobs ->
  dict_get j "name" EmptyString = job_name repo_url ->
  In (listed j) (list_sync_jobs (Some (200%Z, all_jobs)))
  /\ dict_get (listed j) "name" EmptyString = job_name repo_url
  /\ contains_char "/" (job_name repo_url) = false.
Proof.
  intros Hin Hname. split; [|split].
  - unfold list_sync_jobs. change (200 =? 200)%Z with true. cbv iota.
    apply in_map, filter_In. split; [exact Hin|].
    rewrite Hname. unfold job_name, startswith. apply prefix_app.
  - unfold listed. cbn [dict_get]. now rewrite String.eqb_refl.
  - unfold job_name.
    change (contains_char "/" (delete_all ".git"
              (last (split_on "/" repo_url) EmptyString) 0) = false).
    apply delete_all_free.
    destruct (last_In_or_default (split_on "/" repo_url) EmptyString)
      as [E|H]; [now rewrite E|].
    exact (split_on_pieces_free "/" repo_url _ H).
Qed.

(** The theorem at a server that returns the job beside another one. *)
Lemma created_job_is_listed_witness :
  let j := [("name", "sync_app"); ("schedule_str", "EVERY 6 HOURS")] in
  let other := [("name", "cleanup")] in
  In j [other; j]
  /\ dict_get j "name" EmptyString
     = job_name "https://github.com/alice/app.git"
  /\ In (listed j) (list_sync_jobs (Some (200%Z, [other; j]))).
Proof.
  intros j other.
  assert (H1 : In j [other; j]) by (right; left; reflexivity).
  assert (H2 : dict_get j "name" EmptyString
               = job_name "https://github.com/alice/app.git")
    by reflexivity.
  split; [exact H1|]. split; [exact H2|].
  exact (proj1 (created_job_is_listed "https://github.com/alice/app.git" j
                  [other; j] H1 H2)).
Defined.

Lemma filter_all {A} (p : A -> bool) (l : list A) :
  (forall x, In x l -> p x = true) -> filter p l = l.
Proof.
  induction l as [|x l IH]; intros H; [reflexivity|].
  cbn [filter]. rewrite (H x (or_introl eq_refl)). f_equal.
  apply IH. intros y Hy. apply H. now right.
Qed.

(** X28.  The filter stage of [semantic_search] never drops a result on
    account of a filter whose key is not one of the seven metadata columns,
    nor of a comparison filter, one whose value starts with [>] or [<] and
    holds no wildcard: when all filters are of these kinds, the results pass
    unchanged, so a date range narrows nothing. *)
Theorem unknown_keys_and_ranges_filter_nothing
    (fnmatch : string -> string -> bool)
    (filters : list (string * string)) (results : list result) :
  (forall key value, In (key, value) filters ->
     mem key Config.metadata_columns = false
     \/ (contains_char "*" value = false /\ contains_char "%" value = false
         /\ (startswith value ">" = true \/ startswith value "<" = true))) ->
  apply_filters fnmatch filters results = results.
Proof.
  intros H. unfold apply_filters. destruct filters as [|kv filters'];
    [reflexivity|].
  set (filters := kv :: filters') in *.
  apply filter_all. intros r _. apply forallb_forall. intros [key value] Hkv.
  unfold filter_allows.
  destruct (H key value Hkv) as [Hk | (Hs & Hp & Hr)].
  - now rewrite Hk.
  - rewrite Hs, Hp. cbn [orb].
    destruct (mem key Config.metadata_columns); [|reflexivity].
    destruct Hr as [-> | ->]; [reflexivity|]. now rewrite orb_true_r.
Qed.

(** The theorem at a date range and a key that is no metadata column. *)
Lemma unknown_keys_and_ranges_filter_nothing_witness :
  let filters := [("last_modified", ">2024-01-01"); ("relevance", "0.9")] in
  let results := [[("last_modified", "2020-05-05"); ("language", "go")]] in
  apply_filters (fun _ _ => false) filters results = results.
Proof.
  intros filters results.
  apply (unknown_keys_and_ranges_filter_nothing (fun _ _ => false) filters
           results).
  intros key value [E|[E|[]]]; inversion E; subst.
  - right. repeat split; try reflexivity. now left.
  - left. reflexivity.
Defined.
